(** * AdaptivePow: the OpenCL kernels and their host driver

    A shallow embedding of [adaptivepow.cl] (the three kernels and their
    primitives) and of the host side in [opencl_miner.cpp] and the miner
    core, followed by the properties of the specification checked
    against them.

    Conventions.
    - A [uint] is a [Z] in [0, 2^32) and a [ulong] a [Z] in [0, 2^64);
      every C operation that can leave the range is followed by its
      wrap-around ([u32], [u64]).
    - A private array ([uint state[25]], [uint mix[64]]) is a [list Z],
      read with [get] and written with [put].
    - A [__global] buffer is a word-addressed memory [mem = Z -> Z]; the
      index expression of every access is computed the way the kernel
      computes it, in 32-bit unsigned arithmetic.
    - An operation whose result the language does not define (a modulo
      by zero in a kernel, a kernel store into a buffer created
      read-only, a shift by 64 or more on the host) gives [None].
    - The work-items of one launch run concurrently.  Where they touch
      only words of their own the launch is written as a loop; where one
      reads what another writes, the order in which they run is a
      parameter of the launch. *)

From Stdlib Require Import ZArith List Bool Lia FinFun Permutation.
Import ListNotations.
Local Open Scope Z_scope.

(* ================================================================== *)
(** ** Machine integers *)

Definition two32 : Z := 4294967296.
Definition two64 : Z := 18446744073709551616.

(** Conversion to [uint8_t], [uint] and [ulong]: the low 8, 32 and 64 bits. *)
Definition u8  (x : Z) : Z := Z.land x 0xFF.
Definition u32 (x : Z) : Z := Z.land x 0xFFFFFFFF.
Definition u64 (x : Z) : Z := Z.land x 0xFFFFFFFFFFFFFFFF.

Definition add32 (a b : Z) : Z := u32 (a + b).
Definition sub32 (a b : Z) : Z := u32 (a - b).
Definition mul32 (a b : Z) : Z := u32 (a * b).
Definition shl32 (a n : Z) : Z := u32 (Z.shiftl a n).
Definition shr32 (a n : Z) : Z := Z.shiftr a n.
Definition not32 (a : Z) : Z := Z.lxor a 0xFFFFFFFF.

(** A value that fits a [uint]. *)
Definition is_u32 (x : Z) : Prop := u32 x = x.

(* ================================================================== *)
(** ** Private arrays and loops *)

Definition get (a : list Z) (i : nat) : Z := nth i a 0.

(** [a[i] = v]; every index the kernels use is inside the array, an index
    outside leaves the list as it is. *)
Fixpoint put (a : list Z) (i : nat) (v : Z) : list Z :=
  match a, i with
  | [], _ => []
  | _ :: t, O => v :: t
  | h :: t, S j => h :: put t j v
  end.

(** [for (i = lo; i < lo + n; i++) s = body i s] *)
Definition for_range {S : Type} (lo n : nat) (body : nat -> S -> S) (s : S) : S :=
  fold_left (fun acc i => body i acc) (seq lo n) s.

(** A local array before its first write; each kernel writes every slot
    before it reads one. *)
Definition uninit (n : nat) : list Z := repeat 0 n.

(** Global buffers: one memory cell per 32-bit word. *)
Definition mem : Type := Z -> Z.

Definition store (m : mem) (a v : Z) : mem :=
  fun x => if x =? a then v else m x.

(* ================================================================== *)
(** ** adaptivepow.cl: primitives *)

Definition DAG_LOADS  : nat := 64.
Definition MATH_OPS   : nat := 16.
Definition MIX_WORDS  : nat := 64.

Definition FNV_PRIME  : Z := 0x01000193.
Definition FNV_OFFSET : Z := 0x811c9dc5.

(** OpenCL [rotate(x, n)] on [uint]: left rotation, count modulo 32. *)
Definition rotate (x n : Z) : Z :=
  let r := n mod 32 in
  u32 (Z.lor (Z.shiftl x r) (Z.shiftr x (32 - r))).

Definition ROTL32 (x n : Z) : Z := rotate (u32 x) (u32 n).
Definition ROTR32 (x n : Z) : Z := rotate (u32 x) (u32 (32 - n)).

Definition fnv1a (a b : Z) : Z := mul32 (Z.lxor a b) FNV_PRIME.

(** OpenCL [clz] on [uint]; [clz(0) = 32]. *)
Definition clz32 (x : Z) : Z :=
  if x =? 0 then 32 else 31 - Z.log2 x.

(** OpenCL [popcount] on [uint]. *)
Definition popcount32 (x : Z) : Z :=
  fold_left (fun c i => if Z.testbit x (Z.of_nat i) then c + 1 else c) (seq 0 32) 0.

Record kiss99_t : Type := mkKiss { z : Z; w : Z; jsr : Z; jcong : Z }.

(** [kiss99_next]: the returned number and the advanced state. *)
Definition kiss99_next (st : kiss99_t) : Z * kiss99_t :=
  let z1 := add32 (mul32 36969 (Z.land (z st) 0xffff)) (shr32 (z st) 16) in
  let w1 := add32 (mul32 18000 (Z.land (w st) 0xffff)) (shr32 (w st) 16) in
  let mwc := add32 (shl32 z1 16) w1 in
  let j1 := Z.lxor (jsr st) (shl32 (jsr st) 17) in
  let j2 := Z.lxor j1 (shr32 j1 13) in
  let j3 := Z.lxor j2 (shl32 j2 5) in
  let c1 := add32 (mul32 69069 (jcong st)) 1234567 in
  (add32 (Z.lxor mwc c1) j3, mkKiss z1 w1 j3 c1).

Definition keccak_rc : list Z :=
  [ 0x00000001; 0x00008082; 0x0000808a; 0x80008000;
    0x0000808b; 0x80000001; 0x80008081; 0x00008009;
    0x0000008a; 0x00000088; 0x80008009; 0x8000000a;
    0x8000808b; 0x0000008b; 0x00008089; 0x00008003;
    0x00008002; 0x00000080; 0x0000800a; 0x8000000a;
    0x80008081; 0x00008080 ].

Definition keccak_theta (state : list Z) : list Z :=
  let C := map (fun i =>
             Z.lxor (Z.lxor (Z.lxor (Z.lxor (get state i) (get state (i + 5)))
                                    (get state (i + 10)))
                            (get state (i + 15)))
                    (get state (i + 20))) (seq 0 5) in
  let D := map (fun i =>
             Z.lxor (get C ((i + 4) mod 5)) (ROTL32 (get C ((i + 1) mod 5)) 1))
             (seq 0 5) in
  for_range 0 25 (fun i s => put s i (Z.lxor (get s i) (get D (i mod 5)))) state.

(** The kernel's "Rho and Pi (simplified)" loop, with its carried [temp]. *)
Definition keccak_rho_pi (state : list Z) : list Z :=
  fst (for_range 0 24
         (fun i '(s, temp) =>
            let j := ((i + 1) mod 25)%nat in
            let t := get s j in
            (put s j (ROTL32 temp (Z.of_nat ((i + 1) * (i + 2) / 2 mod 32))), t))
         (state, get state 1)).

Definition keccak_chi (state : list Z) : list Z :=
  fold_left
    (fun s j =>
       let t := map (fun i => get s (j + i)) (seq 0 5) in
       for_range 0 5
         (fun i s' =>
            put s' (j + i)
              (Z.lxor (get t i)
                 (Z.land (not32 (get t ((i + 1) mod 5))) (get t ((i + 2) mod 5)))))
         s)
    [0; 5; 10; 15; 20]%nat state.

Definition keccak_iota (round : nat) (state : list Z) : list Z :=
  put state 0 (Z.lxor (get state 0) (get keccak_rc round)).

Definition keccak_round (round : nat) (state : list Z) : list Z :=
  keccak_iota round (keccak_chi (keccak_rho_pi (keccak_theta state))).

Definition keccak_f800 (state : list Z) : list Z :=
  for_range 0 22 keccak_round state.

Definition random_math_op (a b op : Z) : Z :=
  match op mod 11 with
  | 0 => add32 a b
  | 1 => mul32 a b
  | 2 => sub32 a b
  | 3 => Z.lxor a b
  | 4 => ROTL32 a (Z.land b 31)
  | 5 => ROTR32 a (Z.land b 31)
  | 6 => Z.land a b
  | 7 => Z.lor a b
  | 8 => add32 (clz32 a) (clz32 b)
  | 9 => add32 (popcount32 a) (popcount32 b)
  | 10 => Z.lor (shr32 a (Z.land b 15)) (shl32 b (sub32 16 (Z.land b 15)))
  | _ => add32 a b
  end.

(* ================================================================== *)
(** ** adaptivepow.cl: the search kernel *)

(** Device side of the result protocol: the [results] buffer and the
    counter [result_count] points to. *)
Record search_out : Type := mkOut { results : mem; result_count : Z }.

(** "Initialize state from header + nonce" *)
Definition search_init_state (header : list Z) (nonce : Z) : list Z :=
  let state := for_range 0 20 (fun i s => put s i (get header i)) (uninit 25) in
  let state := put state 19 (u32 nonce) in
  let state := put state 20 (u32 (Z.shiftr nonce 32)) in
  for_range 21 4 (fun i s => put s i 0) state.

(** "Initialize mix buffer (256 bytes = 64 uints)" *)
Definition search_init_mix (state : list Z) : list Z :=
  for_range 0 MIX_WORDS (fun i m => put m i (get state (i mod 25))) (uninit MIX_WORDS).

(** "Initialize KISS99 RNG" *)
Definition search_init_rng (state : list Z) : kiss99_t :=
  let rz := fnv1a FNV_OFFSET (get state 0) in
  let rw := fnv1a rz (get state 1) in
  let rjsr := fnv1a rw (get state 2) in
  let rjcong := fnv1a rjsr (get state 3) in
  mkKiss rz rw rjsr rjcong.

(** One iteration of the "Random math operations" loop. *)
Definition search_math_op (st : list Z * kiss99_t) : list Z * kiss99_t :=
  let '(mix, rng) := st in
  let '(r1, rng) := kiss99_next rng in
  let src1 := Z.to_nat (r1 mod Z.of_nat MIX_WORDS) in
  let '(r2, rng) := kiss99_next rng in
  let src2 := Z.to_nat (r2 mod Z.of_nat MIX_WORDS) in
  let '(r3, rng) := kiss99_next rng in
  let dst := Z.to_nat (r3 mod Z.of_nat MIX_WORDS) in
  let '(op_type, rng) := kiss99_next rng in
  (put mix dst (random_math_op (get mix src1) (get mix src2) op_type), rng).

(** One iteration of the main loop.  [dag_idx * 16 + i] is a [uint]
    expression: it wraps at 2^32 before it indexes [dag]. *)
Definition search_round (dag : mem) (dag_size : Z) (round : nat)
    (st : list Z * kiss99_t) : list Z * kiss99_t :=
  let '(mix, rng) := st in
  let dag_idx := fnv1a (Z.lxor (Z.of_nat round) (get mix (round mod MIX_WORDS)))
                       (get mix ((round + 1) mod MIX_WORDS)) in
  let dag_idx := dag_idx mod dag_size in
  let dag_data := map (fun i => dag (add32 (mul32 dag_idx 16) (Z.of_nat i))) (seq 0 16) in
  let mix := for_range 0 16 (fun i m => put m i (fnv1a (get m i) (get dag_data i))) mix in
  for_range 0 MATH_OPS (fun _ s => search_math_op s) (mix, rng).

(** "Compress mix to 32 bytes (8 uints)" *)
Definition search_compress (mix state : list Z) : list Z :=
  for_range 0 8
    (fun i s =>
       let s := put s i (get mix (i * 8)) in
       for_range 1 7 (fun j s' => put s' i (fnv1a (get s' i) (get mix (i * 8 + j)))) s)
    state.

(** The kernel body up to [hash_high], for a nonzero [dag_size]. *)
Definition search_hash_high (dag : mem) (header : list Z) (dag_size nonce : Z) : Z :=
  let state := keccak_f800 (search_init_state header nonce) in
  let mix := search_init_mix state in
  let rng := search_init_rng state in
  let mix := fst (for_range 0 DAG_LOADS (search_round dag dag_size) (mix, rng)) in
  let state := search_compress mix state in
  let state := for_range 8 17 (fun i s => put s i 0) state in
  let state := keccak_f800 state in
  Z.lor (u64 (Z.shiftl (get state 0) 32)) (get state 1).

(** One work-item of [adaptivepow_search], global id [gid].  The modulus
    [dag_size] is the same in all 64 rounds, so [dag_idx %= dag_size] is
    a modulo by zero exactly when [dag_size = 0].  [atomic_inc] returns
    the old counter. *)
Definition adaptivepow_search (dag : mem) (start_nonce : Z) (header : list Z)
    (target dag_size : Z) (out : search_out) (gid : Z) : option search_out :=
  let thread_id := u32 gid in
  let nonce := u64 (start_nonce + thread_id) in
  if dag_size =? 0 then None else
  let hash_high := search_hash_high dag header dag_size nonce in
  if hash_high <=? target then
    let idx := result_count out in
    let count := add32 idx 1 in
    if idx <? 16 then
      let r := store (results out) (mul32 idx 2) (u32 nonce) in
      let r := store r (add32 (mul32 idx 2) 1) (u32 (Z.shiftr nonce 32)) in
      Some (mkOut r count)
    else Some (mkOut (results out) count)
  else Some out.

(** A launch of the search kernel: the work-items take their turn at the
    result counter in the order [order] of their global ids. *)
Definition launch_search (order : list Z) (dag : mem) (start_nonce : Z)
    (header : list Z) (target dag_size : Z) (out : search_out) : option search_out :=
  fold_left
    (fun acc gid =>
       match acc with
       | Some o => adaptivepow_search dag start_nonce header target dag_size o gid
       | None => None
       end)
    order (Some out).

(* ================================================================== *)
(** ** adaptivepow.cl: the dataset kernels *)

(** One work-item of [generate_dag].  The two moduli, [cache_size] and the
    [uint] product [cache_size * 16], do not change in the work-item. *)
Definition generate_dag (cache : mem) (cache_size : Z) (dag : mem)
    (dag_items : Z) (gid : Z) : option mem :=
  let idx := u32 gid in
  if dag_items <=? idx then Some dag else
  if cache_size =? 0 then None else
  if mul32 cache_size 16 =? 0 then None else
  let cache_idx := idx mod cache_size in
  let mix := for_range 0 16
               (fun i m =>
                  put m i (cache (add32 (mul32 cache_idx 16) (Z.of_nat i)
                                   mod mul32 cache_size 16)))
               (uninit 16) in
  let mix := put mix 0 (Z.lxor (get mix 0) idx) in
  let mix := for_range 0 256
               (fun round m =>
                  let parent := fnv1a (Z.lxor idx (Z.of_nat round)) (get m 0)
                                mod cache_size in
                  for_range 0 16
                    (fun i m' =>
                       put m' i (fnv1a (get m' i)
                                   (cache (add32 (mul32 parent 16) (Z.of_nat i)))))
                    m)
               mix in
  Some (for_range 0 16
          (fun i d => store d (add32 (mul32 idx 16) (Z.of_nat i)) (get mix i))
          dag).

(** One work-item of [generate_cache]; [seed] is the 8-word seed buffer. *)
Definition generate_cache (seed : list Z) (cache : mem) (cache_items : Z)
    (gid : Z) : mem :=
  let idx := u32 gid in
  if cache_items <=? idx then cache else
  let item :=
    if idx =? 0 then
      for_range 0 8
        (fun i it =>
           let it := put it i (get seed i) in
           put it (i + 8) (Z.lxor (get seed i) 0xFFFFFFFF))
        (uninit 16)
    else
      for_range 0 16
        (fun i it => put it i (cache (add32 (mul32 (sub32 idx 1) 16) (Z.of_nat i))))
        (uninit 16) in
  let state := for_range 0 16 (fun i s => put s i (get item i)) (uninit 25) in
  let state := for_range 16 9 (fun i s => put s i 0) state in
  let state := keccak_f800 state in
  for_range 0 16
    (fun i c => store c (add32 (mul32 idx 16) (Z.of_nat i)) (get state i))
    cache.

(** Work-items [offset], [offset + 1], ... [offset + n - 1] of a kernel,
    one after the other in that order. *)
Definition launch_in_order {S : Type} (offset : Z) (n : nat)
    (item : S -> Z -> S) (s : S) : S :=
  fold_left (fun acc k => item acc (offset + Z.of_nat k)) (seq 0 n) s.

(* ================================================================== *)
(** ** opencl_miner.cpp: the OpenCL backend *)

Definition DAG_BASE_SIZE : Z := Z.shiftl 1 30.
Definition EPOCH_LENGTH  : Z := 180 * 24 * 60 * 60.
Definition GROWTH_RATE   : Z := 4.
Definition HASH_BYTES    : Z := 64.
Definition BATCH_SIZE    : Z := 8192 * 256.

Record OpenCLContext : Type := mkOcl {
  ocl_epoch : Z;
  ocl_dagSize : Z;
  ocl_dagReady : bool;
  dagBuffer : mem;
  headerBuffer : list Z;
  resultsBuffer : mem;
  resultCountBuffer : Z;
  dagKernel : bool;           (* the handle is not NULL *)
  cacheKernel : bool          (* the handle is not NULL *)
}.

Definition getDagSize (epoch : Z) : Z :=
  let doublings := epoch / GROWTH_RATE in
  let doublings := if doublings >? 10 then 10 else doublings in
  u64 (Z.shiftl DAG_BASE_SIZE doublings).

(** Four bytes of a host buffer seen as one little-endian [uint]. *)
Definition le_word (b : list Z) (k : nat) : Z :=
  Z.lor (Z.lor (get b (4 * k)) (Z.shiftl (get b (4 * k + 1)) 8))
        (Z.lor (Z.shiftl (get b (4 * k + 2)) 16) (Z.shiftl (get b (4 * k + 3)) 24)).

Definition words_of_bytes (b : list Z) (n : nat) : list Z :=
  map (le_word b) (seq 0 n).

(** "Generate seed (simplified - in production use proper Keccak)":
    the 32 bytes [adaptivepow_opencl_generate_dag] uploads as the seed. *)
Definition opencl_dag_seed (epoch : Z) : list Z :=
  let seed := repeat 0 32 in
  let seed := put seed 0 (Z.land epoch 0xFF) in
  put seed 1 (Z.land (Z.shiftr epoch 8) 0xFF).

Definition round_up_256 (n : Z) : Z := (n + 256 - 1) / 256 * 256.

(** The number of cache items of an epoch: [cacheItems] of
    [adaptivepow_opencl_generate_dag] for [dagSize = getDagSize(epoch)]. *)
Definition epoch_cache_items (epoch : Z) : Z :=
  let cacheSize := getDagSize epoch / 64 in
  u32 (cacheSize / HASH_BYTES).

(** The cache part of [adaptivepow_opencl_generate_dag]: the item count
    and the seed words the cache kernel receives. *)
Definition opencl_cache_items (ctx : OpenCLContext) : Z :=
  let cacheSize := ocl_dagSize ctx / 64 in
  u32 (cacheSize / HASH_BYTES).

Definition opencl_seed_words (ctx : OpenCLContext) : list Z :=
  words_of_bytes (opencl_dag_seed (ocl_epoch ctx)) 8.

(** The global size of the cache launch: [cacheItems] rounded up to the
    local size. *)
Definition cache_global_size (ctx : OpenCLContext) : nat :=
  Z.to_nat (round_up_256 (opencl_cache_items ctx)).

(** The work-items of one [generate_cache] launch.  The host enqueues
    them as a single NDRange and nothing orders them, while work-item
    [idx] reads the item that work-item [idx - 1] writes: [order] is the
    order in which they happen to run, one at a time. *)
Definition launch_cache (order : list Z) (seed : list Z) (cache_items : Z)
    (cache : mem) : mem :=
  fold_left (fun c gid => generate_cache seed c cache_items gid) order cache.

(** The cache buffer before the DAG launches.  [cache0] is the content
    of the fresh buffer, [order] a serialisation of the global ids below
    [cache_global_size]; a NULL [cacheKernel] launches nothing. *)
Definition opencl_build_cache (order : list Z) (cache0 : mem)
    (ctx : OpenCLContext) : mem :=
  let cacheItems := opencl_cache_items ctx in
  if cacheKernel ctx
  then launch_cache order (opencl_seed_words ctx) cacheItems cache0
  else cache0.

(** A [generate_dag] work-item on the context's DAG buffer.
    [adaptivepow_opencl_init] creates that buffer with [CL_MEM_READ_ONLY]
    and nothing creates it again: the stores of a work-item that gets
    past its guard have no defined effect. *)
Definition generate_dag_read_only (cache : mem) (cache_size : Z) (dag : mem)
    (dag_items : Z) (gid : Z) : option mem :=
  if dag_items <=? u32 gid
  then generate_dag cache cache_size dag dag_items gid
  else None.

(** [adaptivepow_opencl_generate_dag], for a non-null context whose cache
    buffer was created.  The DAG is generated in sub-launches of 2^20
    items; the item counts reach the kernels as [uint32_t].  Either
    kernel is launched only if its handle is not NULL; [dagReady] is set
    and 0 returned in every case. *)
Definition adaptivepow_opencl_generate_dag (cache_order : list Z) (cache0 : mem)
    (ctx : OpenCLContext) : option OpenCLContext :=
  let dagItems := ocl_dagSize ctx / HASH_BYTES in
  let cacheItems := opencl_cache_items ctx in
  let cache := opencl_build_cache cache_order cache0 ctx in
  let batchSize := 1024 * 1024 in
  let batches := Z.to_nat ((dagItems + batchSize - 1) / batchSize) in
  let dag :=
    if dagKernel ctx then
      for_range 0 batches
        (fun b acc =>
           let offset := Z.of_nat b * batchSize in
           let remaining := dagItems - offset in
           let thisSize := if remaining <? batchSize then remaining else batchSize in
           launch_in_order offset (Z.to_nat (round_up_256 thisSize))
             (fun d gid =>
                match d with
                | Some d' =>
                    generate_dag_read_only cache cacheItems d' (u32 dagItems) gid
                | None => None
                end)
             acc)
        (Some (dagBuffer ctx))
    else Some (dagBuffer ctx) in
  match dag with
  | Some d =>
      Some (mkOcl (ocl_epoch ctx) (ocl_dagSize ctx) true d (headerBuffer ctx)
              (resultsBuffer ctx) (resultCountBuffer ctx)
              (dagKernel ctx) (cacheKernel ctx))
  | None => None
  end.

(** What [clEnqueueNDRangeKernel] and [clFinish] leave in the result
    buffers for the search kernel's arguments: the dispatch layer. *)
Definition executor : Type :=
  mem -> Z -> list Z -> Z -> Z -> search_out -> search_out.

(** The nonces of one launch: global size [BATCH_SIZE], no offset, work-item
    [thread_id] hashes [start_nonce + thread_id]. *)
Definition batch_nonces (start_nonce : Z) : list Z :=
  map (fun k => u64 (start_nonce + u32 (Z.of_nat k))) (seq 0 (Z.to_nat BATCH_SIZE)).

Record search_ret : Type := mkRet {
  ret : Z;
  foundNonce : Z;
  hashCount : Z;
  launched : list Z;          (* ghost: the nonces hashed by this call *)
  ocl_after : option OpenCLContext
}.

Definition adaptivepow_opencl_search (exec : executor) (ctx : option OpenCLContext)
    (header : list Z) (target startNonce : Z) (foundNonce0 hashCount0 : Z)
    : search_ret :=
  match ctx with
  | None => mkRet (-1) foundNonce0 hashCount0 [] ctx
  | Some c =>
    if negb (ocl_dagReady c) then mkRet (-1) foundNonce0 hashCount0 [] ctx else
    let dagItems := u32 (ocl_dagSize c / HASH_BYTES) in
    let dev := exec (dagBuffer c) startNonce header target dagItems
                 (mkOut (resultsBuffer c) 0) in
    let c' := mkOcl (ocl_epoch c) (ocl_dagSize c) (ocl_dagReady c) (dagBuffer c)
                header (results dev) (result_count dev)
                (dagKernel c) (cacheKernel c) in
    let hashCount := BATCH_SIZE in
    let resultCount := result_count dev in
    if resultCount >? 0 then
      let found := Z.lor (u64 (Z.shiftl (results dev 1) 32)) (results dev 0) in
      mkRet 1 found hashCount (batch_nonces startNonce) (Some c')
    else mkRet 0 foundNonce0 hashCount (batch_nonces startNonce) (Some c')
  end.

(* ================================================================== *)
(** ** The miner core *)

(** Modelled from the spec: [MiningJob], declared in [miner.h];
    [{job_id, prev_hash, merkle_root, n_time, n_bits, target}] with the
    field names the code uses.  The hashes are 32 bytes each. *)
Record MiningJob : Type := mkJob {
  jobId : list Z;
  prevHash : list Z;
  merkleRoot : list Z;
  nTime : Z;
  nBits : Z;
  target : Z
}.

(** Modelled from the spec: [MiningResult], declared in [miner.h];
    [{job_id, nonce: uint64, found: bool}]. *)
Record MiningResult : Type := mkResult {
  res_jobId : list Z;
  nonce : Z;
  found : bool
}.

Record MinerContext : Type := mkMiner {
  deviceId : Z;
  epoch : Z;
  dagSize : Z;
  isCuda : bool;
  dagReady : bool;
  gpuContext : option OpenCLContext;
  totalHashes : Z;
  acceptedShares : Z;
  rejectedShares : Z;
  currentNonce : Z;
  hasResult : bool;
  pendingResult : MiningResult
}.

(** [adaptivepow_get_seed]: the 32 bytes written to [seed]. *)
Definition adaptivepow_get_seed (epoch : Z) : list Z :=
  let seed := repeat 0 32 in
  let seed := put seed 0 (Z.land epoch 0xFF) in
  let seed := put seed 1 (Z.land (Z.shiftr epoch 8) 0xFF) in
  let seed := put seed 2 (Z.land (Z.shiftr epoch 16) 0xFF) in
  let seed := put seed 3 (Z.land (Z.shiftr epoch 24) 0xFF) in
  for_range 0 32
    (fun i s =>
       put s i (u8 (Z.lxor (get s i)
                      (Z.shiftr (mul32 epoch 0x01000193) (Z.of_nat (i mod 4 * 8))))))
    seed.

(** [strncpy(dst, src, n)]: the bytes of [src] up to its terminator, then
    zeros, [n] bytes in all; the rest of [dst] stays. *)
Fixpoint strncpy (dst src : list Z) (n : nat) : list Z :=
  match n, dst with
  | O, _ => dst
  | _, [] => []
  | S n', _ :: dst' =>
      match src with
      | c :: src' => if c =? 0 then 0 :: strncpy dst' [] n'
                     else c :: strncpy dst' src' n'
      | [] => 0 :: strncpy dst' [] n'
      end
  end.

(** "Build header from job" *)
Definition job_header (job : MiningJob) : list Z :=
  let header := repeat 0 20 in
  let header :=
    for_range 0 8 (fun k h => put h k (le_word (prevHash job) k)) header in
  let header :=
    for_range 0 8 (fun k h => put h (8 + k) (le_word (merkleRoot job) k)) header in
  let header := put header 16 (nTime job) in
  put header 17 (nBits job).

Record submit_ret : Type := mkSubmit {
  sub_result : Z;
  sub_ctx : option MinerContext;
  sub_launched : list Z        (* ghost: the nonces hashed by this call *)
}.

(** [miner_submit_job], built [WITH_OPENCL]; the CUDA backend is not part
    of the sources, a CUDA context gets no search. *)
Definition miner_submit_job (exec : executor) (ctx : option MinerContext)
    (job : option MiningJob) : submit_ret :=
  match ctx, job with
  | Some c, Some j =>
    if negb (dagReady c) then mkSubmit (-1) ctx [] else
    let header := job_header j in
    let r :=
      if negb (isCuda c) then
        adaptivepow_opencl_search exec (gpuContext c) header (target j)
          (currentNonce c) 0 0
      else mkRet (-1) 0 0 [] (gpuContext c) in
    let total := u64 (totalHashes c + hashCount r) in
    let cur := u64 (currentNonce c + hashCount r) in
    let pend :=
      if ret r >? 0 then
        (true,
         mkResult (strncpy (res_jobId (pendingResult c)) (jobId j)
                     (length (res_jobId (pendingResult c)) - 1))
                  (foundNonce r) true)
      else (hasResult c, pendingResult c) in
    mkSubmit (ret r)
      (Some (mkMiner (deviceId c) (epoch c) (dagSize c) (isCuda c) (dagReady c)
               (ocl_after r) total (acceptedShares c) (rejectedShares c) cur
               (fst pend) (snd pend)))
      (launched r)
  | _, _ => mkSubmit (-1) ctx []
  end.

(** Successive [miner_submit_job] calls on one job, one dispatch outcome
    per call: the context after each call, oldest first, and the nonces
    hashed by all of them in the order of the calls. *)
Fixpoint submit_batches (execs : list executor) (ctx : option MinerContext)
    (job : MiningJob) : list (option MinerContext) * list Z :=
  match execs with
  | [] => ([], [])
  | e :: es =>
      let r := miner_submit_job e ctx (Some job) in
      let '(ctxs, ns) := submit_batches es (sub_ctx r) job in
      (sub_ctx r :: ctxs, sub_launched r ++ ns)
  end.

(** A shift of a [w]-bit unsigned value; the count must be below [w]. *)
Definition shr_checked (width x n : Z) : option Z :=
  if n <? width then Some (Z.shiftr x n) else None.

Definition bits_to_target64 (nBits : Z) : option Z :=
  let nSize := Z.shiftr nBits 24 in
  let nWord := Z.land nBits 0x007fffff in
  if nSize <=? 3 then shr_checked 32 nWord (mul32 8 (sub32 3 nSize))
  else shr_checked 64 0xFFFFFFFFFFFFFFFF (mul32 (sub32 nSize 3) 8).

Definition verify_solution (job : MiningJob) (result : MiningResult) : bool :=
  found result.

(* ================================================================== *)
(** ** The specification's words

    The datasets as the specification sees them: a sequence of items of
    16 words each, item [i] at words [16 i .. 16 i + 15] of its buffer. *)

Definition item_of (m : mem) (i : Z) : list Z :=
  map (fun k => m (16 * i + Z.of_nat k)) (seq 0 16).

Definition low32 (n : Z) : Z := n mod two32.
Definition high32 (n : Z) : Z := (n / two32) mod two32.

Fixpoint iterate {S : Type} (n : nat) (f : S -> S) (s : S) : S :=
  match n with
  | O => s
  | Datatypes.S k => iterate k f (f s)
  end.

Fixpoint zip_with (f : Z -> Z -> Z) (a b : list Z) : list Z :=
  match a, b with
  | x :: a', y :: b' => f x y :: zip_with f a' b'
  | _, _ => []
  end.

(** Section 4.5, step 1 (before the permutation). *)
Definition spec_seed_state (header : list Z) (n : Z) : list Z :=
  firstn 19 header ++ [low32 n; high32 n; 0; 0; 0; 0].

(** Step 2. *)
Definition spec_mix_init (state : list Z) : list Z :=
  map (fun k => nth (k mod 25) state 0) (seq 0 64).

(** Step 3. *)
Definition spec_rng_seed (state : list Z) : kiss99_t :=
  let rz := fnv1a FNV_OFFSET (nth 0 state 0) in
  let rw := fnv1a rz (nth 1 state 0) in
  let rjsr := fnv1a rw (nth 2 state 0) in
  mkKiss rz rw rjsr (fnv1a rjsr (nth 3 state 0)).

(** Step 4, one random op. *)
Definition spec_random_op (st : list Z * kiss99_t) : list Z * kiss99_t :=
  let '(s1, rng1) := kiss99_next (snd st) in
  let '(s2, rng2) := kiss99_next rng1 in
  let '(d, rng3) := kiss99_next rng2 in
  let '(op_type, rng4) := kiss99_next rng3 in
  let mix := fst st in
  (put mix (Z.to_nat (d mod 64))
     (random_math_op (nth (Z.to_nat (s1 mod 64)) mix 0)
                     (nth (Z.to_nat (s2 mod 64)) mix 0) op_type),
   rng4).

(** Step 4, one round: one DAG item merged into [mix[0..16)], then 16
    random ops. *)
Definition spec_round (dag : mem) (n_dag : Z) (round : nat)
    (st : list Z * kiss99_t) : list Z * kiss99_t :=
  let mix := fst st in
  let dag_idx :=
    fnv1a (Z.lxor (Z.of_nat round) (nth (round mod 64) mix 0))
          (nth ((round + 1) mod 64) mix 0) mod n_dag in
  let merged := zip_with fnv1a (firstn 16 mix) (item_of dag dag_idx) in
  iterate 16 spec_random_op (merged ++ skipn 16 mix, snd st).

(** Step 5. *)
Definition spec_compress (mix : list Z) : list Z :=
  map (fun i =>
         fold_left (fun acc j => fnv1a acc (nth (i * 8 + j) mix 0)) (seq 1 7)
                   (nth (i * 8) mix 0))
      (seq 0 8).

(** Steps 1 to 7: [hash_high]. *)
Definition spec_hash_high (dag : mem) (header : list Z) (n_dag n : Z) : Z :=
  let state := keccak_f800 (spec_seed_state header n) in
  let st := fold_left (fun st round => spec_round dag n_dag round st) (seq 0 64)
              (spec_mix_init state, spec_rng_seed state) in
  let final := keccak_f800 (spec_compress (fst st) ++ repeat 0 17) in
  Z.lor (Z.shiftl (nth 0 final 0) 32) (nth 1 final 0).

Definition spec_passes (dag : mem) (header : list Z) (n_dag n tgt : Z) : bool :=
  spec_hash_high dag header n_dag n <=? tgt.

(** Section 4.4: DAG item [i]. *)
Definition spec_dag_item (cache : mem) (n_cache i : Z) : list Z :=
  let mix := item_of cache (i mod n_cache) in
  let mix := put mix 0 (Z.lxor (nth 0 mix 0) i) in
  fold_left
    (fun mix round =>
       let parent := fnv1a (Z.lxor i (Z.of_nat round)) (nth 0 mix 0) mod n_cache in
       zip_with fnv1a mix (item_of cache parent))
    (seq 0 256) mix.

(** Section 4.3: the block cache item [i] is derived from, and the item. *)
Definition spec_cache_block (seed : list Z) (cache : mem) (i : Z) : list Z :=
  if i =? 0 then firstn 8 seed ++ map (fun s => Z.lxor s 0xFFFFFFFF) (firstn 8 seed)
  else item_of cache (i - 1).

Definition spec_cache_item (block : list Z) : list Z :=
  firstn 16 (keccak_f800 (block ++ repeat 0 9)).

(** Section 4.2 asks for Keccak-256; the sources contain no Keccak-256,
    so the sponge is written out here: Keccak-f[1600] on 25 lanes of 64
    bits, rate 136 bytes, one block, domain byte [dom] ([0x01] for
    Keccak-256, [0x06] for SHA3-256). *)
Definition rotl64 (x n : Z) : Z :=
  u64 (Z.lor (Z.shiftl x n) (Z.shiftr x (64 - n))).

Definition keccak1600_rc : list Z :=
  [ 0x0000000000000001; 0x0000000000008082; 0x800000000000808A;
    0x8000000080008000; 0x000000000000808B; 0x0000000080000001;
    0x8000000080008081; 0x8000000000008009; 0x000000000000008A;
    0x0000000000000088; 0x0000000080008009; 0x000000008000000A;
    0x000000008000808B; 0x800000000000008B; 0x8000000000008089;
    0x8000000000008003; 0x8000000000008002; 0x8000000000000080;
    0x000000000000800A; 0x800000008000000A; 0x8000000080008081;
    0x8000000000008080; 0x0000000080000001; 0x8000000080008008 ].

(** Rotation offsets, lane [x + 5 y]. *)
Definition keccak1600_rot : list Z :=
  [ 0; 1; 62; 28; 27;   36; 44; 6; 55; 20;   3; 10; 43; 25; 39;
    41; 45; 15; 21; 8;  18; 2; 61; 56; 14 ].

Definition keccak1600_round (rc : Z) (a : list Z) : list Z :=
  let lane x y := nth (x mod 5 + 5 * (y mod 5)) a 0 in
  let c x := fold_left Z.lxor (map (lane x) (seq 1 4)) (lane x 0%nat) in
  let d x := Z.lxor (c (x + 4)%nat) (rotl64 (c (x + 1)%nat) 1) in
  let th x y := Z.lxor (lane x y) (d x) in
  (* B[y][2x+3y] = rot(A[x][y]); read backwards: B[X][Y] comes from
     x = (X + 3 Y) mod 5, y = X *)
  let b X Y :=
    let x := ((X + 3 * Y) mod 5)%nat in
    let y := X in
    rotl64 (th x y) (nth (x + 5 * y) keccak1600_rot 0) in
  let chi X Y :=
    Z.lxor (b X Y)
      (Z.land (Z.lxor (b ((X + 1) mod 5)%nat Y) (two64 - 1)) (b ((X + 2) mod 5)%nat Y)) in
  map (fun k => let v := chi (k mod 5)%nat (k / 5)%nat in
                if (k =? 0)%nat then Z.lxor v rc else v)
      (seq 0 25).

Definition keccak_f1600 (a : list Z) : list Z :=
  fold_left (fun s rc => keccak1600_round rc s) keccak1600_rc a.

Definition le_lane (b : list Z) (k : nat) : Z :=
  fold_right (fun i acc => nth (8 * k + i) b 0 + 256 * acc) 0 (seq 0 8).

Definition lane_bytes (l : Z) : list Z :=
  map (fun i => (l / 256 ^ Z.of_nat i) mod 256) (seq 0 8).

(** The digest of a message shorter than one block. *)
Definition keccak256_with (dom : Z) (msg : list Z) : list Z :=
  let padded := msg ++ [dom] ++ repeat 0 (135 - S (length msg)) ++ [0x80] in
  let block := map (le_lane padded) (seq 0 17) ++ repeat 0 8 in
  firstn 32 (flat_map lane_bytes (keccak_f1600 block)).

Definition keccak256 : list Z -> list Z := keccak256_with 0x01.

(** "the little-endian 32-bit epoch representation padded to 32 bytes" *)
Definition epoch_le_padded (epoch : Z) : list Z :=
  map (fun i => (epoch / 256 ^ Z.of_nat i) mod 256) (seq 0 4) ++ repeat 0 28.

Definition spec_seed (epoch : Z) : list Z := keccak256 (epoch_le_padded epoch).

(** The nonce of work-item [gid] and the outcome of its target check. *)
Definition work_item_nonce (start_nonce gid : Z) : Z :=
  u64 (start_nonce + u32 gid).

Definition work_item_passes (dag : mem) (start_nonce : Z) (header : list Z)
    (target dag_size : Z) (gid : Z) : bool :=
  search_hash_high dag header dag_size (work_item_nonce start_nonce gid) <=? target.

(** The dispatch layer running the search kernel with its work-items
    serialised in the order [order]; where the kernel has no defined
    result the buffers are left as they were. *)
Definition search_executor (order : list Z) : executor :=
  fun dag start_nonce header target dag_size out =>
    match launch_search order dag start_nonce header target dag_size out with
    | Some o => o
    | None => out
    end.

(* ================================================================== *)
(** ** Intervals of nonces and concrete inputs *)

(** [start, start + 1, ..., start + n - 1] *)
Definition zinterval (start : Z) (n : nat) : list Z :=
  map (fun k => start + Z.of_nat k) (seq 0 n).

Definition zero_mem : mem := fun _ => 0.

(** The buffer whose item [j] holds the number [j] in each of its words. *)
Definition index_mem : mem := fun a => a / 16.

Definition zero_header : list Z := repeat 0 20.

Definition job_zero (tgt : Z) : MiningJob :=
  mkJob [] (repeat 0 32) (repeat 0 32) 0 0 tgt.

(** A ready context of epoch 0 whose DAG buffer holds zeros. *)
Definition ocl_ready : OpenCLContext :=
  mkOcl 0 (getDagSize 0) true zero_mem [] zero_mem 0 true true.

(** The context [adaptivepow_opencl_init] leaves for an epoch when both
    dataset kernels were created, with zeros in its buffers. *)
Definition ocl_init (epoch : Z) : OpenCLContext :=
  mkOcl epoch (getDagSize epoch) false zero_mem [] zero_mem 0 true true.

(** A serialisation of a launch of [m] work-items in which work-item 1
    runs first, then work-item 0, then the others in the order of their
    index. *)
Definition one_before_zero (m : nat) : list Z :=
  1 :: 0 :: map Z.of_nat (seq 2 (m - 2)).

Definition miner_at (cur : Z) : MinerContext :=
  mkMiner 0 0 (getDagSize 0) false true (Some ocl_ready) 0 0 0 cur false
    (mkResult (repeat 0 33) 0 false).

(** A dispatch in which no work-item finds anything. *)
Definition exec_none : executor := fun _ _ _ _ _ out => out.

(** A context on which a search can run. *)
Definition ready (c : MinerContext) : Prop :=
  dagReady c = true /\ isCuda c = false /\
  exists o, gpuContext c = Some o /\ ocl_dagReady o = true.

(* ================================================================== *)
(** ** The miner core: epochs, results, DAG regeneration, targets *)

(** Modelled from the spec: [ADAPTIVEPOW_EPOCH_LENGTH],
    [ADAPTIVEPOW_GROWTH_RATE] and [ADAPTIVEPOW_DAG_BASE_SIZE], defined in
    [miner.h]; "EPOCH_LENGTH = 180·24·60·60 seconds", "DAG_BASE_SIZE = 2^30
    and GROWTH_RATE = 4", the values of the macros of the same names in
    [opencl_miner.cpp]. *)
Definition ADAPTIVEPOW_EPOCH_LENGTH  : Z := EPOCH_LENGTH.

(** [timestamp] and [genesisTime] are [uint64_t], the result [uint32_t]. *)
Definition adaptivepow_get_epoch (timestamp genesisTime : Z) : Z :=
  if timestamp <=? genesisTime then 0
  else u32 (u64 (timestamp - genesisTime) / ADAPTIVEPOW_EPOCH_LENGTH).


(** The return value of [adaptivepow_opencl_generate_dag] with the
    context it leaves.  [alloc_ok] says whether [clCreateBuffer] could
    create the cache buffer, [cache_order] is the order in which the
    cache work-items run.  [None]: a kernel did something undefined. *)
Definition adaptivepow_opencl_generate_dag_ret (alloc_ok : bool)
    (cache_order : list Z) (cache0 : mem) (ctx : option OpenCLContext)
    : option (Z * option OpenCLContext) :=
  match ctx with
  | None => Some (-1, None)
  | Some c =>
      if negb alloc_ok then Some (-2, Some c) else
      match adaptivepow_opencl_generate_dag cache_order cache0 c with
      | Some c' => Some (0, Some c')
      | None => None
      end
  end.

(** [miner_generate_dag], built [WITH_OPENCL]. *)
Definition miner_generate_dag (alloc_ok : bool) (cache_order : list Z)
    (cache0 : mem) (ctx : option MinerContext)
    : option (Z * option MinerContext) :=
  match ctx with
  | None => Some (-1, None)
  | Some c =>
      if dagReady c then Some (-1, ctx) else
      if isCuda c then Some (-1, ctx) else
      match adaptivepow_opencl_generate_dag_ret alloc_ok cache_order cache0
              (gpuContext c) with
      | Some (result, gpu) =>
          Some (result,
                Some (mkMiner (deviceId c) (epoch c) (dagSize c) (isCuda c)
                        (if result =? 0 then true else dagReady c) gpu
                        (totalHashes c) (acceptedShares c) (rejectedShares c)
                        (currentNonce c) (hasResult c) (pendingResult c)))
      | None => None
      end
  end.

Definition miner_dag_ready (ctx : option MinerContext) : bool :=
  match ctx with
  | Some c => dagReady c
  | None => false
  end.


Record get_ret : Type := mkGet {
  get_result : Z;
  get_ctx : option MinerContext;
  get_out : option MiningResult
}.

(** [miner_get_result]; [result] is what the caller's [MiningResult]
    holds before the call. *)
Definition miner_get_result (ctx : option MinerContext)
    (result : option MiningResult) : get_ret :=
  match ctx, result with
  | Some c, Some r =>
      if hasResult c then
        mkGet 1
          (Some (mkMiner (deviceId c) (epoch c) (dagSize c) (isCuda c) (dagReady c)
                   (gpuContext c) (totalHashes c) (acceptedShares c)
                   (rejectedShares c) (currentNonce c) false (pendingResult c)))
          (Some (pendingResult c))
      else mkGet 0 ctx (Some (mkResult (res_jobId r) (nonce r) false))
  | _, _ => mkGet (-1) ctx result
  end.

(** [target[i] = v] on [uint8_t target[32]]; an index outside the array
    has no defined effect. *)
Definition put_checked (a : list Z) (i v : Z) : option (list Z) :=
  if (0 <=? i) && (i <? Z.of_nat (length a))
  then Some (put a (Z.to_nat i) v) else None.

Definition bits_to_target256 (nBits : Z) : option (list Z) :=
  let target := repeat 0 32 in
  let nSize := Z.shiftr nBits 24 in
  let nWord := Z.land nBits 0x007fffff in
  if nSize <=? 3 then
    match shr_checked 32 nWord (mul32 8 (sub32 3 nSize)) with
    | Some nWord =>
        let target := put target 0 (Z.land nWord 0xFF) in
        let target := put target 1 (Z.land (Z.shiftr nWord 8) 0xFF) in
        Some (put target 2 (Z.land (Z.shiftr nWord 16) 0xFF))
    | None => None
    end
  else
    let offset := sub32 nSize 3 in
    match put_checked target offset (Z.land nWord 0xFF) with
    | Some target =>
        match put_checked target (offset + 1) (Z.land (Z.shiftr nWord 8) 0xFF) with
        | Some target =>
            put_checked target (offset + 2) (Z.land (Z.shiftr nWord 16) 0xFF)
        | None => None
        end
    | None => None
    end.

(** The number a byte array holds, least significant byte first. *)
Fixpoint le_value (bytes : list Z) : Z :=
  match bytes with
  | [] => 0
  | b :: rest => b + 256 * le_value rest
  end.

(* ================================================================== *)
(** ** Launches in an arbitrary order *)

(** The work-items [order] of [generate_dag], one after the other. *)
Definition launch_dag (order : list Z) (cache : mem) (cache_size : Z)
    (dag_items : Z) (dag : option mem) : option mem :=
  fold_left
    (fun acc gid =>
       match acc with
       | Some d => generate_dag cache cache_size d dag_items gid
       | None => None
       end)
    order dag.

(** The sub-launches of [adaptivepow_opencl_generate_dag] on its
    read-only DAG buffer. *)
Definition dag_batches (cache : mem) (cs dagItems : Z) (dag0 : option mem)
    : option mem :=
  let batchSize := 1024 * 1024 in
  let batches := Z.to_nat ((dagItems + batchSize - 1) / batchSize) in
  for_range 0 batches
    (fun b acc =>
       let offset := Z.of_nat b * batchSize in
       let remaining := dagItems - offset in
       let thisSize := if remaining <? batchSize then remaining else batchSize in
       launch_in_order offset (Z.to_nat (round_up_256 thisSize))
         (fun d gid =>
            match d with
            | Some d' => generate_dag_read_only cache cs d' (u32 dagItems) gid
            | None => None
            end)
         acc)
    dag0.

(** A state on which the two colliding inputs of the permutation differ. *)
Definition keccak_twin : list Z :=
  [ 789798438; 1154976175; 3051514820; 4170903861; 2797358457;
    789798438; 1154976175; 3051514820; 4170903861; 2797358457;
    789798438; 1154976175; 3051514820; 4170903861; 2797358457;
    789798438; 1154976175; 3051514820; 4170903861; 2797358457;
    789798438; 1154976175; 3051514820; 4170903861; 2797358456 ].

(* ================================================================== *)
(** * Properties *)

(** ** Machine integers *)

Lemma u32_mod (x : Z) : u32 x = x mod two32.
Proof. unfold u32. change 0xFFFFFFFF with (Z.ones 32). now rewrite Z.land_ones. Qed.

Lemma u64_mod (x : Z) : u64 x = x mod two64.
Proof. unfold u64. change 0xFFFFFFFFFFFFFFFF with (Z.ones 64). now rewrite Z.land_ones. Qed.

Lemma u32_range (x : Z) : 0 <= u32 x < two32.
Proof. rewrite u32_mod. apply Z.mod_pos_bound. reflexivity. Qed.

Lemma u64_range (x : Z) : 0 <= u64 x < two64.
Proof. rewrite u64_mod. apply Z.mod_pos_bound. reflexivity. Qed.

Lemma u32_small (x : Z) : 0 <= x < two32 -> u32 x = x.
Proof. intros. rewrite u32_mod. now apply Z.mod_small. Qed.

Lemma u64_small (x : Z) : 0 <= x < two64 -> u64 x = x.
Proof. intros. rewrite u64_mod. now apply Z.mod_small. Qed.

Lemma u32_idem (x : Z) : u32 (u32 x) = u32 x.
Proof. apply u32_small, u32_range. Qed.

Lemma is_u32_range (x : Z) : is_u32 x <-> 0 <= x < two32.
Proof.
  split; intro H.
  - rewrite <- H. apply u32_range.
  - now apply u32_small.
Qed.

Lemma is_u32_u32 (x : Z) : is_u32 (u32 x).
Proof. apply u32_idem. Qed.

Lemma is_u32_lxor (a b : Z) : is_u32 a -> is_u32 b -> is_u32 (Z.lxor a b).
Proof.
  unfold is_u32, u32. intros Ha Hb.
  rewrite <- Ha, <- Hb at 2.
  apply Z.bits_inj'; intros n _.
  rewrite !Z.land_spec, !Z.lxor_spec, !Z.land_spec.
  now destruct (Z.testbit a n), (Z.testbit b n), (Z.testbit 0xFFFFFFFF n).
Qed.

Lemma is_u32_land (a b : Z) : is_u32 b -> is_u32 (Z.land a b).
Proof.
  unfold is_u32, u32. intros Hb.
  now rewrite <- Z.land_assoc, Hb.
Qed.

Lemma is_u32_not32 (a : Z) : is_u32 a -> is_u32 (not32 a).
Proof. intro H. apply is_u32_lxor; [assumption | reflexivity]. Qed.

Lemma is_u32_fnv1a (a b : Z) : is_u32 (fnv1a a b).
Proof. apply is_u32_u32. Qed.

Lemma is_u32_ROTL32 (x n : Z) : is_u32 (ROTL32 x n).
Proof. apply is_u32_u32. Qed.

(** The two halves of a [ulong] put together again. *)
Lemma shiftl_u64 (hi : Z) :
  0 <= hi < two32 -> u64 (Z.shiftl hi 32) = Z.shiftl hi 32.
Proof.
  intros Hhi. rewrite Z.shiftl_mul_pow2 by lia.
  apply u64_small. unfold two32, two64 in *. lia.
Qed.

Lemma lor_halves (hi lo : Z) :
  0 <= hi < two32 -> 0 <= lo < two32 ->
  Z.lor (u64 (Z.shiftl hi 32)) lo = hi * two32 + lo.
Proof.
  intros Hhi Hlo. rewrite shiftl_u64 by exact Hhi.
  rewrite Z.shiftl_mul_pow2 by lia. change (2 ^ 32) with two32.
  rewrite <- Z.lxor_lor, <- Z.add_nocarry_lxor; try reflexivity.
  all: apply Z.bits_inj'; intros n Hn; rewrite Z.land_spec, Z.bits_0;
    destruct (Z.ltb_spec n 32).
  all: try (change two32 with (2 ^ 32); rewrite Z.mul_pow2_bits_low by lia; reflexivity).
  all: replace (Z.testbit lo n) with false; [apply andb_false_r|];
    symmetry; apply Z.bits_above_log2; [lia|];
    destruct (Z.eq_dec lo 0) as [->|]; [simpl; lia|];
    apply Z.lt_le_trans with 32; [apply Z.log2_lt_pow2; unfold two32 in *; lia | lia].
Qed.

Lemma split_halves (n : Z) :
  0 <= n < two64 ->
  Z.lor (u64 (Z.shiftl (u32 (Z.shiftr n 32)) 32)) (u32 n) = n.
Proof.
  intros Hn.
  rewrite lor_halves by apply u32_range.
  rewrite !u32_mod, Z.shiftr_div_pow2 by lia. change (2 ^ 32) with two32.
  rewrite (Z.mod_small (n / two32)).
  - pose proof (Z.div_mod n two32). unfold two32 in *. lia.
  - split; [apply Z.div_pos; unfold two32; lia|].
    apply Z.div_lt_upper_bound; unfold two32, two64 in *; lia.
Qed.

(* ================================================================== *)
(** ** Arrays, loops and buffers *)

Arguments batch_nonces : simpl never.
Arguments BATCH_SIZE : simpl never.
Arguments u64 : simpl never.
Arguments u32 : simpl never.

(** A list of known length as its elements. *)
Ltac explode l H :=
  repeat (let x := fresh "x" in
          destruct l as [|x l]; [discriminate H|];
          cbn [length] in H; apply eq_add_S in H);
  destruct l; [clear H | discriminate H].

Lemma length_put (a : list Z) (i : nat) (v : Z) : length (put a i v) = length a.
Proof.
  revert i. induction a as [|h t IH]; intros [|j]; cbn; try reflexivity.
  now rewrite IH.
Qed.

Lemma for_range_S {S : Type} (lo n : nat) (body : nat -> S -> S) (s : S) :
  for_range lo (Datatypes.S n) body s = body (lo + n)%nat (for_range lo n body s).
Proof. unfold for_range. now rewrite seq_S, fold_left_app. Qed.

Lemma fold_left_ext_inv {S I : Type} (P : S -> Prop) (l : list I)
    (f g : S -> I -> S) (s : S) :
  P s ->
  (forall i x, In i l -> P x -> P (f x i)) ->
  (forall i x, In i l -> P x -> f x i = g x i) ->
  fold_left f l s = fold_left g l s /\ P (fold_left f l s).
Proof.
  revert s. induction l as [|i l IH]; intros s Hs Hkeep Heq.
  - split; [reflexivity | exact Hs].
  - cbn [fold_left]. rewrite <- (Heq i s) by (try left; auto).
    apply IH.
    + apply Hkeep; [now left | exact Hs].
    + intros; apply Hkeep; [now right | assumption].
    + intros; apply Heq; [now right | assumption].
Qed.

(** Two loop bodies that agree on the indices of the range, on the states
    the loop passes through. *)
Lemma for_range_ext_inv {S : Type} (P : S -> Prop) (lo n : nat)
    (body body' : nat -> S -> S) (s : S) :
  P s ->
  (forall i x, (lo <= i < lo + n)%nat -> P x -> P (body i x)) ->
  (forall i x, (lo <= i < lo + n)%nat -> P x -> body i x = body' i x) ->
  for_range lo n body s = for_range lo n body' s /\ P (for_range lo n body s).
Proof.
  intros Hs Hkeep Heq. induction n as [|n IH].
  - split; [reflexivity | exact Hs].
  - rewrite !for_range_S. destruct IH as [IHeq IHP].
    + intros; apply Hkeep; [lia | assumption].
    + intros; apply Heq; [lia | assumption].
    + rewrite <- IHeq. split.
      * apply Heq; [lia | exact IHP].
      * apply Hkeep; [lia | exact IHP].
Qed.

Lemma fold_left_for_range {S : Type} (f : S -> nat -> S) (lo n : nat) (s : S) :
  fold_left f (seq lo n) s = for_range lo n (fun i x => f x i) s.
Proof. reflexivity. Qed.

Lemma for_range_ext {S : Type} (lo n : nat) (body body' : nat -> S -> S) (s : S) :
  (forall i x, (lo <= i < lo + n)%nat -> body i x = body' i x) ->
  for_range lo n body s = for_range lo n body' s.
Proof.
  intros H.
  apply (for_range_ext_inv (fun _ => True) lo n body body' s); auto.
Qed.

Lemma for_range_inv {S : Type} (P : S -> Prop) (lo n : nat)
    (body : nat -> S -> S) (s : S) :
  P s ->
  (forall i x, (lo <= i < lo + n)%nat -> P x -> P (body i x)) ->
  P (for_range lo n body s).
Proof.
  intros Hs Hkeep.
  apply (for_range_ext_inv P lo n body body s); auto.
Qed.

Lemma list_eq_get (a b : list Z) :
  length a = length b -> (forall k, (k < length a)%nat -> get a k = get b k) -> a = b.
Proof. intros Hl Hk. apply (nth_ext a b 0 0 Hl Hk). Qed.

Lemma map_get_seq (a : list Z) : map (get a) (seq 0 (length a)) = a.
Proof.
  apply list_eq_get.
  - now rewrite length_map, length_seq.
  - intros k Hk. rewrite length_map, length_seq in Hk. unfold get at 1.
    rewrite (nth_indep _ 0 (get a 0)) by now rewrite length_map, length_seq.
    now rewrite map_nth, seq_nth.
Qed.

(** [for (i = 0; i < n; i++) buf[base + i] = f(i)], read back at [a]. *)
Lemma for_range_store (n : nat) (base : Z) (f : nat -> Z) (c : mem) (a : Z) :
  for_range 0 n (fun i d => store d (base + Z.of_nat i) (f i)) c a
  = if (base <=? a) && (a <? base + Z.of_nat n)
    then f (Z.to_nat (a - base)) else c a.
Proof.
  induction n as [|n IH].
  - cbn. destruct (Z.leb_spec base a), (Z.ltb_spec a (base + 0)); cbn; try reflexivity; lia.
  - rewrite for_range_S. cbn [Nat.add]. unfold store at 1.
    destruct (Z.eqb_spec a (base + Z.of_nat n)) as [->|Hne].
    + destruct (Z.leb_spec base (base + Z.of_nat n)); [|lia].
      destruct (Z.ltb_spec (base + Z.of_nat n) (base + Z.of_nat (S n))); [|lia].
      cbn [andb]. f_equal. lia.
    + rewrite IH.
      destruct (Z.leb_spec base a); cbn [andb]; [|reflexivity].
      destruct (Z.ltb_spec a (base + Z.of_nat n)),
               (Z.ltb_spec a (base + Z.of_nat (S n))); try reflexivity; lia.
Qed.

(* ================================================================== *)
(** ** Keccak-f[800]: word count and word size *)

(** The permutation keeps the number of words. *)
Lemma length_keccak_round (r : nat) (s : list Z) :
  length (keccak_round r s) = length s.
Proof.
  unfold keccak_round, keccak_iota, keccak_chi, keccak_rho_pi, keccak_theta.
  rewrite length_put. cbn [fold_left].
  repeat (match goal with
          | |- length (for_range ?lo ?n ?b ?x) = _ =>
              transitivity (length x);
              [apply (for_range_inv (fun y => length y = length x));
               [reflexivity | intros; now rewrite length_put] |]
          end).
  match goal with
  | |- length (fst (for_range ?lo ?n ?b ?x)) = _ =>
      apply (for_range_inv (fun y => length (fst y) = length s));
      [cbn [fst] | intros i [y t] _ H; cbn [fst] in *; now rewrite length_put]
  end.
  apply (for_range_inv (fun y => length y = length s));
    [reflexivity | intros; now rewrite length_put].
Qed.

Lemma length_keccak_f800 (s : list Z) : length (keccak_f800 s) = length s.
Proof.
  unfold keccak_f800.
  apply (for_range_inv (fun y => length y = length s));
    [reflexivity | intros; now rewrite length_keccak_round].
Qed.

Lemma Forall_put (P : Z -> Prop) (a : list Z) (i : nat) (v : Z) :
  Forall P a -> P v -> Forall P (put a i v).
Proof.
  intros Ha Hv. revert i. induction Ha as [|x l Hx Hl IH]; intros [|j]; cbn;
    constructor; auto.
Qed.

Lemma Forall_get (P : Z -> Prop) (a : list Z) (i : nat) :
  Forall P a -> P 0 -> P (get a i).
Proof.
  intros Ha H0. unfold get.
  destruct (Nat.lt_ge_cases i (length a)) as [Hlt|Hge].
  - apply (proj1 (Forall_forall P a) Ha). now apply nth_In.
  - now rewrite nth_overflow.
Qed.

Lemma is_u32_0 : is_u32 0.
Proof. reflexivity. Qed.

Lemma keccak_rc_u32 : Forall is_u32 keccak_rc.
Proof. repeat constructor. Qed.

Lemma Forall_map_any {A : Type} (P : Z -> Prop) (f : A -> Z) (l : list A) :
  (forall i, P (f i)) -> Forall P (map f l).
Proof. intros H. induction l; cbn; constructor; auto. Qed.

Lemma fold_left_inv {S I : Type} (P : S -> Prop) (l : list I) (f : S -> I -> S) (s : S) :
  P s -> (forall i x, In i l -> P x -> P (f x i)) -> P (fold_left f l s).
Proof.
  intros Hs Hkeep. apply (fold_left_ext_inv P l f f s); auto.
Qed.

Ltac u32_step :=
  first [ assumption | exact is_u32_0 | exact keccak_rc_u32
        | apply is_u32_ROTL32 | apply is_u32_fnv1a
        | apply is_u32_lxor | apply is_u32_land | apply is_u32_not32
        | apply Forall_put | apply Forall_get
        | apply Forall_map_any; intros ].

Ltac u32_solve := repeat u32_step.

Lemma keccak_round_u32 (r : nat) (s : list Z) :
  Forall is_u32 s -> Forall is_u32 (keccak_round r s).
Proof.
  intros Hs. unfold keccak_round.
  assert (H1 : Forall is_u32 (keccak_theta s)).
  { unfold keccak_theta. cbv zeta. apply for_range_inv; [exact Hs|].
    intros i x _ Hx. u32_solve. }
  assert (H2 : Forall is_u32 (keccak_rho_pi (keccak_theta s))).
  { unfold keccak_rho_pi. revert H1. generalize (keccak_theta s). intros s1 H1.
    apply (for_range_inv (fun p => Forall is_u32 (fst p) /\ is_u32 (snd p))).
    - cbn [fst snd]. split; u32_solve.
    - intros i [x t] _ [Hx Ht]. cbn [fst snd] in *. split; u32_solve. }
  assert (H3 : Forall is_u32 (keccak_chi (keccak_rho_pi (keccak_theta s)))).
  { unfold keccak_chi. apply fold_left_inv; [exact H2|].
    intros j x _ Hx. cbv zeta. apply for_range_inv; [exact Hx|].
    intros i y _ Hy. u32_solve. }
  unfold keccak_iota. u32_solve.
Qed.

Lemma keccak_f800_u32 (s : list Z) :
  Forall is_u32 s -> Forall is_u32 (keccak_f800 s).
Proof.
  intros Hs. unfold keccak_f800. apply for_range_inv; [exact Hs|].
  intros; now apply keccak_round_u32.
Qed.

(* ================================================================== *)
(** ** The random-op table *)

(** C7 (as stated, false): entry 10 with [b = 0] and [a = 1] is 1, not 0. *)
Lemma random_math_op_10_b0_nonzero : random_math_op 1 0 10 <> 0.
Proof. discriminate. Qed.

(** C7 (amended).  Entry 10 with [b = 0] is [(a >> 0) | (0 << 16)], which
    is [a]: the right operand vanishes, the left one is [a] itself. *)
Theorem random_math_op_10_b0 (a : Z) : random_math_op a 0 10 = a.
Proof.
  unfold random_math_op. change (10 mod 11) with 10.
  change (Z.land 0 15) with 0. change (sub32 16 0) with 16.
  change (shl32 0 16) with 0. unfold shr32.
  now rewrite Z.shiftr_0_r, Z.lor_0_r.
Qed.

(* ================================================================== *)
(** ** Target arithmetic: [bits_to_target64] *)

Lemma nSize_range (nBits : Z) :
  0 <= nBits < two32 -> 0 <= Z.shiftr nBits 24 < 256.
Proof.
  intros H. rewrite Z.shiftr_div_pow2 by lia. split.
  - apply Z.div_pos; lia.
  - apply Z.div_lt_upper_bound; unfold two32 in *; lia.
Qed.

(** The shift count of the second branch, as the code computes it. *)
Lemma high_shift_count (nSize : Z) :
  3 < nSize < 256 -> mul32 (sub32 nSize 3) 8 = (nSize - 3) * 8.
Proof.
  intros H. unfold mul32, sub32.
  rewrite (u32_small (nSize - 3)) by (unfold two32; lia).
  apply u32_small. unfold two32; lia.
Qed.

Lemma low_shift_count (nSize : Z) :
  0 <= nSize <= 3 -> mul32 8 (sub32 3 nSize) = 8 * (3 - nSize).
Proof.
  intros H. unfold mul32, sub32.
  rewrite (u32_small (3 - nSize)) by (unfold two32; lia).
  apply u32_small. unfold two32; lia.
Qed.

(** Up to size 10 the function returns what section 6 writes down. *)
Lemma bits_to_target64_defined (nBits : Z) :
  0 <= nBits < two32 ->
  Z.shiftr nBits 24 <= 10 ->
  bits_to_target64 nBits =
  Some (if Z.shiftr nBits 24 <=? 3
        then Z.shiftr (Z.land nBits 0x007fffff) (8 * (3 - Z.shiftr nBits 24))
        else Z.shiftr 0xFFFFFFFFFFFFFFFF ((Z.shiftr nBits 24 - 3) * 8)).
Proof.
  intros Hr Hs. pose proof (nSize_range nBits Hr) as Hn.
  unfold bits_to_target64, shr_checked.
  destruct (Z.leb_spec (Z.shiftr nBits 24) 3).
  - rewrite low_shift_count by lia.
    destruct (Z.ltb_spec (8 * (3 - Z.shiftr nBits 24)) 32); [reflexivity | lia].
  - rewrite high_shift_count by lia.
    destruct (Z.ltb_spec ((Z.shiftr nBits 24 - 3) * 8) 64); [reflexivity | lia].
Qed.

(** The out-of-range shift is taken exactly from size 11 on. *)
Lemma bits_to_target64_undefined_iff (nBits : Z) :
  0 <= nBits < two32 ->
  bits_to_target64 nBits = None <-> 11 <= Z.shiftr nBits 24.
Proof.
  intros Hr. pose proof (nSize_range nBits Hr) as Hn. split.
  - intros Hnone.
    destruct (Z.le_gt_cases (Z.shiftr nBits 24) 10) as [Hle|]; [|lia].
    rewrite bits_to_target64_defined in Hnone by assumption. discriminate.
  - intros Hge. unfold bits_to_target64, shr_checked.
    destruct (Z.leb_spec (Z.shiftr nBits 24) 3); [lia|].
    rewrite high_shift_count by lia.
    destruct (Z.ltb_spec ((Z.shiftr nBits 24 - 3) * 8) 64); [lia | reflexivity].
Qed.

(** C8 (fails on the code).  For [nBits = 0x1d00ffff], the compact target
    of section 8, the size is 29: the value of the formula is
    [0xFFFFFFFFFFFFFFFF >> 208], that is 0, but the code shifts a 64-bit
    operand by 208 and returns no defined value. *)
Theorem bits_to_target64_size29_not_formula :
  Z.shiftr 0xFFFFFFFFFFFFFFFF ((Z.shiftr 0x1d00ffff 24 - 3) * 8) = 0 /\
  bits_to_target64 0x1d00ffff <>
  Some (Z.shiftr 0xFFFFFFFFFFFFFFFF ((Z.shiftr 0x1d00ffff 24 - 3) * 8)).
Proof. split; [reflexivity | discriminate]. Qed.

(** C9 (fails on the code).  For [nBits = 0x1d00ffff] the shift count of
    the second branch is 208, not below 64: the error branch of
    [bits_to_target64] is reached. *)
Theorem bits_to_target64_shift_count_208 :
  mul32 (sub32 (Z.shiftr 0x1d00ffff 24) 3) 8 = 208 /\
  ~ (208 < 64) /\
  bits_to_target64 0x1d00ffff = None.
Proof. split; [reflexivity | split; [lia | reflexivity]]. Qed.

(* ================================================================== *)
(** ** Seed derivation *)

Example keccak256_zero32 :
  keccak256 (repeat 0 32) =
  [0x29;0x0d;0xec;0xd9;0x54;0x8b;0x62;0xa8;0xd6;0x03;0x45;0xa9;0x88;0x38;0x6f;0xc8;
   0x4b;0xa6;0xbc;0x95;0x48;0x40;0x08;0xf6;0x36;0x2f;0x93;0x16;0x0e;0xf3;0xe5;0x63].
Proof. vm_compute. reflexivity. Qed.

(** The seed is a function of the epoch alone, and 32 bytes long. *)
Lemma adaptivepow_get_seed_length (e : Z) : length (adaptivepow_get_seed e) = 32%nat.
Proof. reflexivity. Qed.

(** C3 (fails on the code).  At epoch 0 both seed routines of the sources
    give 32 zero bytes, which is not the Keccak-256 digest of the padded
    epoch (nor its SHA3-256 variant); at epoch 1 the two routines do not
    even agree with each other. *)
Theorem seed_is_not_keccak256 :
  adaptivepow_get_seed 0 <> spec_seed 0 /\
  opencl_dag_seed 0 <> spec_seed 0 /\
  adaptivepow_get_seed 0 <> keccak256_with 0x06 (epoch_le_padded 0) /\
  adaptivepow_get_seed 1 <> opencl_dag_seed 1.
Proof. repeat split; vm_compute; discriminate. Qed.

(* ================================================================== *)
(** ** The cache builder: [generate_cache] *)

(** Word [k] of item [idx]: the [uint] index does not wrap below 2^28
    items. *)
Lemma item_index (idx k : Z) :
  0 <= idx < 268435456 -> 0 <= k < 16 ->
  add32 (mul32 idx 16) k = 16 * idx + k.
Proof.
  intros Hi Hk. unfold add32, mul32.
  rewrite (u32_small (idx * 16)) by (unfold two32; lia).
  rewrite u32_small by (unfold two32; lia). lia.
Qed.

Lemma length_item_of (m : mem) (i : Z) : length (item_of m i) = 16%nat.
Proof. reflexivity. Qed.

Lemma length_spec_cache_block (seed : list Z) (c : mem) (i : Z) :
  length seed = 8%nat -> length (spec_cache_block seed c i) = 16%nat.
Proof.
  intros H. unfold spec_cache_block. destruct (i =? 0); [|reflexivity].
  rewrite length_app, length_map, firstn_all2 by lia. lia.
Qed.

Lemma length_spec_cache_item (b : list Z) :
  length b = 16%nat -> length (spec_cache_item b) = 16%nat.
Proof.
  intros H. unfold spec_cache_item.
  rewrite length_firstn, length_keccak_f800, length_app, repeat_length. lia.
Qed.

(** One work-item: it writes the 16 words of its own item, computed from
    the block of section 4.3, and nothing else. *)
Lemma generate_cache_lookup (seed : list Z) (c : mem) (n idx : Z) :
  length seed = 8%nat ->
  0 <= idx < n -> n <= 268435456 ->
  forall a,
    generate_cache seed c n idx a =
    if (16 * idx <=? a) && (a <? 16 * idx + 16)
    then nth (Z.to_nat (a - 16 * idx)) (spec_cache_item (spec_cache_block seed c idx)) 0
    else c a.
Proof.
  intros Hseed Hidx Hn a. unfold generate_cache.
  rewrite (u32_small idx) by (unfold two32; lia).
  destruct (Z.leb_spec n idx) as [|_]; [lia|]. cbv zeta.
  match goal with |- context [keccak_f800 ?x] => set (st := keccak_f800 x) end.
  rewrite (for_range_ext 0 16 _
             (fun i d => store d (16 * idx + Z.of_nat i) (get st i))).
  2:{ intros i x Hi. f_equal. apply item_index; lia. }
  rewrite for_range_store. change (Z.of_nat 16) with 16.
  destruct ((16 * idx <=? a) && (a <? 16 * idx + 16)) eqn:Hin; [|reflexivity].
  apply andb_prop in Hin. destruct Hin as [Hlo Hhi].
  apply Z.leb_le in Hlo. apply Z.ltb_lt in Hhi.
  unfold spec_cache_item. rewrite nth_firstn.
  destruct (Nat.ltb_spec (Z.to_nat (a - 16 * idx)) 16) as [_|Hbad]; [|lia].
  unfold get, st. f_equal. f_equal.
  unfold spec_cache_block. destruct (Z.eqb_spec idx 0) as [->|Hnz].
  - explode seed Hseed. reflexivity.
  - rewrite (for_range_ext 0 16
               (fun i it =>
                  put it i (c (add32 (mul32 (sub32 idx 1) 16) (Z.of_nat i))))
               (fun i it => put it i (c (16 * (idx - 1) + Z.of_nat i)))).
    + reflexivity.
    + intros i x Hi. f_equal. f_equal. unfold sub32.
      rewrite (u32_small (idx - 1)) by (unfold two32; lia).
      apply item_index; lia.
Qed.

Lemma generate_cache_skip (seed : list Z) (c : mem) (n gid : Z) :
  n <= u32 gid -> generate_cache seed c n gid = c.
Proof.
  intros H. unfold generate_cache.
  destruct (Z.leb_spec n (u32 gid)); [reflexivity | lia].
Qed.

Lemma launch_in_order_S {S : Type} (offset : Z) (k : nat) (item : S -> Z -> S) (s : S) :
  launch_in_order offset (Datatypes.S k) item s
  = item (launch_in_order offset k item s) (offset + Z.of_nat k).
Proof. unfold launch_in_order. now rewrite seq_S, fold_left_app. Qed.

Lemma spec_cache_block_ext (seed : list Z) (c c' : mem) (i : Z) :
  (forall a, 16 * (i - 1) <= a < 16 * (i - 1) + 16 -> c a = c' a) ->
  spec_cache_block seed c i = spec_cache_block seed c' i.
Proof.
  intros H. unfold spec_cache_block. destruct (i =? 0); [reflexivity|].
  unfold item_of. apply map_ext_in. intros k Hk. apply in_seq in Hk.
  apply H. lia.
Qed.

Lemma round_up_256_bounds (n : Z) :
  0 <= n -> n <= round_up_256 n < n + 256.
Proof.
  intros H. unfold round_up_256.
  pose proof (Z.div_mod (n + 256 - 1) 256 ltac:(lia)).
  pose proof (Z.mod_pos_bound (n + 256 - 1) 256 ltac:(lia)). lia.
Qed.

Section CacheInOrder.

Variables (seed : list Z) (cache0 : mem) (n : Z).
Hypothesis seed_words : length seed = 8%nat.
Hypothesis n_fits : n <= 268435456.

Local Abbreviation run k :=
  (launch_in_order 0 k (fun c gid => generate_cache seed c n gid) cache0).

(** After the first [k] work-items, the items below [k] and below [n]
    are in place, each derived from the one before it. *)
Lemma generate_cache_prefix (k : nat) :
  Z.of_nat k <= two32 ->
  forall i, 0 <= i < Z.of_nat k -> i < n ->
  forall j, 0 <= j < 16 ->
    run k (16 * i + j)
    = nth (Z.to_nat j) (spec_cache_item (spec_cache_block seed (run k) i)) 0.
Proof.
  induction k as [|k IH]; intros Hk i Hi Hin j Hj; [lia|].
  assert (Hstep : run (S k) = generate_cache seed (run k) n (Z.of_nat k)).
  { now rewrite launch_in_order_S. }
  destruct (Z.le_gt_cases n (Z.of_nat k)) as [Hdone|Hlive].
  - rewrite Hstep, generate_cache_skip
      by (rewrite u32_small; unfold two32 in *; lia).
    apply IH; lia.
  - assert (Hw := generate_cache_lookup seed (run k) n (Z.of_nat k)
                    seed_words ltac:(lia) n_fits).
    assert (Hbelow : forall a, a < 16 * Z.of_nat k -> run (S k) a = run k a).
    { intros a Ha. rewrite Hstep, Hw.
      destruct (Z.leb_spec (16 * Z.of_nat k) a); [lia | reflexivity]. }
    rewrite (spec_cache_block_ext seed (run (S k)) (run k))
      by (intros a Ha; apply Hbelow; lia).
    destruct (Z.eq_dec i (Z.of_nat k)) as [->|Hne].
    + rewrite Hstep, Hw.
      destruct (Z.leb_spec (16 * Z.of_nat k) (16 * Z.of_nat k + j)); [|lia].
      destruct (Z.ltb_spec (16 * Z.of_nat k + j) (16 * Z.of_nat k + 16)); [|lia].
      cbn [andb]. do 2 f_equal. lia.
    + rewrite Hbelow by lia. apply IH; lia.
Qed.

End CacheInOrder.

(** The cache of every epoch has at most 2^28 items. *)
Lemma cache_items_bound (e : Z) :
  0 <= e -> epoch_cache_items e <= 268435456.
Proof.
  intros He.
  unfold epoch_cache_items, getDagSize, GROWTH_RATE, HASH_BYTES, DAG_BASE_SIZE.
  cbv zeta.
  set (d := if e / 4 >? 10 then 10 else e / 4).
  assert (Hd : 0 <= d <= 10).
  { unfold d. rewrite Z.gtb_ltb. destruct (Z.ltb_spec 10 (e / 4)); [lia|].
    split; [apply Z.div_pos; lia | lia]. }
  assert (Hp : 1 <= 2 ^ d <= 2 ^ 10).
  { split; [apply (Z.pow_le_mono_r 2 0 d); lia | apply Z.pow_le_mono_r; lia]. }
  rewrite (Z.shiftl_mul_pow2 _ d) by lia. change (Z.shiftl 1 30) with 1073741824.
  rewrite u64_small by (unfold two64; lia).
  rewrite Z.div_div by lia. change (64 * 64) with 4096.
  assert (Hq : 1073741824 * 2 ^ d / 4096 = 262144 * 2 ^ d).
  { replace (1073741824 * 2 ^ d) with (262144 * 2 ^ d * 4096) by lia.
    apply Z.div_mul. lia. }
  rewrite Hq, u32_small; unfold two32; lia.
Qed.

(** A launch of at least [n] work-items in the order of their index. *)
Lemma generate_cache_launch (seed : list Z) (cache0 : mem) (n i : Z) (g : nat) :
  length seed = 8%nat ->
  n <= 268435456 ->
  0 <= i < n ->
  n <= Z.of_nat g <= two32 ->
  item_of (launch_in_order 0 g (fun c gid => generate_cache seed c n gid) cache0) i
  = spec_cache_item
      (spec_cache_block seed
         (launch_in_order 0 g (fun c gid => generate_cache seed c n gid) cache0) i).
Proof.
  intros Hseed Hn Hi Hg.
  apply list_eq_get.
  - now rewrite length_item_of, length_spec_cache_item
      by now apply length_spec_cache_block.
  - intros k Hk. rewrite length_item_of in Hk.
    unfold item_of, get at 1.
    rewrite (nth_indep _ 0
               (launch_in_order 0 g (fun c gid => generate_cache seed c n gid) cache0
                  (16 * i + Z.of_nat 0)))
      by now rewrite length_map, length_seq.
    rewrite (map_nth (fun k =>
               launch_in_order 0 g (fun c gid => generate_cache seed c n gid) cache0
                 (16 * i + Z.of_nat k))), seq_nth by exact Hk.
    cbn [Nat.add].
    rewrite (generate_cache_prefix seed cache0 n Hseed Hn) by lia.
    rewrite Nat2Z.id. unfold get. reflexivity.
Qed.

Lemma fold_left_map_ids {S A B : Type} (f : S -> B -> S) (g : A -> B)
    (l : list A) (s : S) :
  fold_left f (map g l) s = fold_left (fun acc x => f acc (g x)) l s.
Proof.
  revert s. induction l as [|x l IH]; intros s; [reflexivity|].
  cbn [map fold_left]. apply IH.
Qed.

(** The serialisation in the order of the global ids. *)
Lemma launch_cache_in_order (seed : list Z) (n : Z) (g : nat) (c : mem) :
  launch_cache (map Z.of_nat (seq 0 g)) seed n c
  = launch_in_order 0 g (fun c gid => generate_cache seed c n gid) c.
Proof.
  unfold launch_cache, launch_in_order. now rewrite fold_left_map_ids.
Qed.

Lemma launch_cache_app (order1 order2 : list Z) (seed : list Z) (n : Z) (c : mem) :
  launch_cache (order1 ++ order2) seed n c
  = launch_cache order2 seed n (launch_cache order1 seed n c).
Proof. unfold launch_cache. apply fold_left_app. Qed.

(** One work-item leaves behind the item of section 4.3 for the buffer
    it found. *)
Lemma generate_cache_own_item (seed : list Z) (c : mem) (n i : Z) :
  length seed = 8%nat ->
  0 <= i < n -> n <= 268435456 ->
  item_of (generate_cache seed c n i) i
  = spec_cache_item (spec_cache_block seed c i).
Proof.
  intros Hseed Hi Hn.
  rewrite <- (map_get_seq (spec_cache_item (spec_cache_block seed c i))).
  rewrite length_spec_cache_item by now apply length_spec_cache_block.
  unfold item_of. apply map_ext_in. intros k Hk. apply in_seq in Hk.
  rewrite (generate_cache_lookup seed c n i Hseed Hi Hn).
  destruct (Z.leb_spec (16 * i) (16 * i + Z.of_nat k)); [|lia].
  destruct (Z.ltb_spec (16 * i + Z.of_nat k) (16 * i + 16)); [|lia].
  cbn [andb]. unfold get. f_equal. lia.
Qed.

(** Work-items other than [i] leave item [i] alone. *)
Lemma launch_cache_frame (seed : list Z) (n i : Z) (order : list Z) (c : mem) :
  length seed = 8%nat ->
  n <= 268435456 ->
  (forall g, In g order -> 0 <= g < two32 /\ g <> i) ->
  forall a, 16 * i <= a < 16 * i + 16 -> launch_cache order seed n c a = c a.
Proof.
  intros Hseed Hn. revert c. induction order as [|g order IH]; intros c Hids a Ha;
    [reflexivity|].
  change (launch_cache (g :: order) seed n c)
    with (launch_cache order seed n (generate_cache seed c n g)).
  rewrite IH by (try assumption; intros j Hj; apply Hids; now right).
  destruct (Hids g ltac:(now left)) as [Hg Hne].
  destruct (Z.le_gt_cases n g) as [Hskip|Hlive].
  - now rewrite generate_cache_skip by (rewrite u32_small; assumption).
  - rewrite (generate_cache_lookup seed c n g Hseed ltac:(lia) Hn).
    destruct (Z.leb_spec (16 * g) a); [|reflexivity].
    destruct (Z.ltb_spec a (16 * g + 16)); [lia | reflexivity].
Qed.

(** Whatever the serialisation, a work-item that runs once computes its
    item from the buffer as it is when its turn comes. *)
Lemma launch_cache_item (seed : list Z) (cache0 : mem) (n i : Z)
    (before after : list Z) :
  length seed = 8%nat ->
  n <= 268435456 ->
  0 <= i < n ->
  (forall g, In g after -> 0 <= g < two32 /\ g <> i) ->
  item_of (launch_cache (before ++ i :: after) seed n cache0) i
  = spec_cache_item (spec_cache_block seed (launch_cache before seed n cache0) i).
Proof.
  intros Hseed Hn Hi Hafter. rewrite launch_cache_app.
  change (launch_cache (i :: after) seed n (launch_cache before seed n cache0))
    with (launch_cache after seed n
            (generate_cache seed (launch_cache before seed n cache0) n i)).
  rewrite <- (generate_cache_own_item seed _ n i Hseed Hi Hn).
  unfold item_of. apply map_ext_in. intros k Hk. apply in_seq in Hk.
  apply (launch_cache_frame seed n i); try assumption. lia.
Qed.

(** In the order of the global ids the cache
    [adaptivepow_opencl_generate_dag] builds for an epoch is the cache of
    section 4.3 for the seed words it uploads. *)
Lemma opencl_build_cache_in_order (e : Z) (cache0 : mem) (ctx : OpenCLContext) (i : Z) :
  0 <= e ->
  ocl_dagSize ctx = getDagSize e ->
  cacheKernel ctx = true ->
  0 <= i < opencl_cache_items ctx ->
  let cache :=
    opencl_build_cache (map Z.of_nat (seq 0 (cache_global_size ctx))) cache0 ctx in
  item_of cache i = spec_cache_item (spec_cache_block (opencl_seed_words ctx) cache i).
Proof.
  intros He Hsize Hk Hi.
  assert (Hn : opencl_cache_items ctx <= 268435456).
  { unfold opencl_cache_items. rewrite Hsize. now apply cache_items_bound. }
  pose proof (round_up_256_bounds (opencl_cache_items ctx) ltac:(lia)).
  unfold opencl_build_cache. cbv zeta. rewrite Hk, launch_cache_in_order.
  unfold cache_global_size.
  apply generate_cache_launch; try assumption; [reflexivity|].
  unfold two32. lia.
Qed.

Lemma one_before_zero_permutation (m : nat) :
  (2 <= m)%nat -> Permutation (one_before_zero m) (map Z.of_nat (seq 0 m)).
Proof.
  intros Hm. destruct m as [|[|k]]; [lia | lia |].
  unfold one_before_zero.
  replace (S (S k) - 2)%nat with k by lia.
  cbn [seq map]. apply perm_swap.
Qed.

(** The seed and the sizes of the cache launch of epoch 0. *)
Lemma opencl_seed_words_0 : opencl_seed_words (ocl_init 0) = repeat 0 8.
Proof. reflexivity. Qed.

Lemma opencl_cache_items_0 : opencl_cache_items (ocl_init 0) = 262144.
Proof. reflexivity. Qed.

Lemma cache_global_size_0 : Z.of_nat (cache_global_size (ocl_init 0)) = 262144.
Proof.
  unfold cache_global_size. rewrite opencl_cache_items_0.
  change (round_up_256 262144) with 262144. now rewrite Z2Nat.id.
Qed.

(** Item 1 computed from a zero buffer, and computed from item 0. *)
Lemma cache_item_1_stale :
  spec_cache_item (spec_cache_block (repeat 0 8) zero_mem 1)
  = [3019080347; 1710305023; 2816751684; 2933072932; 1391434737; 2651831591;
     686665440; 2261961769; 919034649; 60697894; 1430949096; 2672219244;
     1517891452; 2141175001; 4262829101; 2033445172].
Proof. vm_compute. reflexivity. Qed.

Lemma cache_item_1_chained (c : mem) :
  spec_cache_item (spec_cache_item (spec_cache_block (repeat 0 8) c 0))
  = [1805728152; 2840998092; 1191823956; 2551473309; 449298328; 3598585104;
     1643305479; 2651235370; 717945555; 30969438; 3563856471; 3332260053;
     3353616762; 1918929774; 4100644527; 3011160196].
Proof. vm_compute. reflexivity. Qed.

(** The cache of epoch 0 when work-item 1 runs before work-item 0. *)
Lemma opencl_build_cache_one_before_zero :
  let cache :=
    opencl_build_cache (one_before_zero (cache_global_size (ocl_init 0)))
      zero_mem (ocl_init 0) in
  item_of cache 1 = spec_cache_item (spec_cache_block (repeat 0 8) zero_mem 1) /\
  item_of cache 0 = spec_cache_item (spec_cache_block (repeat 0 8) zero_mem 0).
Proof.
  cbv zeta. pose proof cache_global_size_0 as Hm.
  unfold opencl_build_cache. cbv zeta.
  change (cacheKernel (ocl_init 0)) with true. cbv iota.
  rewrite opencl_seed_words_0, opencl_cache_items_0.
  generalize dependent (cache_global_size (ocl_init 0)). intros m Hm.
  unfold one_before_zero.
  assert (Hrest : forall g, In g (map Z.of_nat (seq 2 (m - 2))) ->
            0 <= g < two32 /\ g <> 1 /\ g <> 0).
  { intros g Hg. apply in_map_iff in Hg. destruct Hg as (k & <- & Hk).
    apply in_seq in Hk. unfold two32. lia. }
  split.
  - apply (launch_cache_item (repeat 0 8) zero_mem 262144 1 []);
      [reflexivity | lia | lia |].
    intros g [<-|Hg]; [unfold two32; lia|].
    destruct (Hrest g Hg) as (? & ? & ?). now split.
  - change (1 :: 0 :: map Z.of_nat (seq 2 (m - 2)))
      with ([1] ++ 0 :: map Z.of_nat (seq 2 (m - 2))).
    rewrite (launch_cache_item (repeat 0 8) zero_mem 262144 0 [1]);
      [reflexivity | reflexivity | lia | lia |].
    intros g Hg. destruct (Hrest g Hg) as (? & ? & ?). now split.
Qed.

(** C4 (the code does not do this).  The host enqueues the work-items of
    [generate_cache] as one launch and nothing orders them, while
    work-item [i] reads the item work-item [i - 1] writes.  For the cache
    of epoch 0 (2^18 items, zero seed, zero buffer): when the work-items
    run in the order of their index, item 1 is the item of section 4.3;
    when work-item 1 runs before work-item 0, item 1 is computed from the
    buffer's old content and is not the first 16 words of Keccak-f[800]
    on item 0. *)
Theorem generate_cache_schedule_race :
  let ctx := ocl_init 0 in
  let seed := opencl_seed_words ctx in
  let ids := map Z.of_nat (seq 0 (cache_global_size ctx)) in
  let order := one_before_zero (cache_global_size ctx) in
  let in_order := opencl_build_cache ids zero_mem ctx in
  let cache := opencl_build_cache order zero_mem ctx in
  Permutation order ids /\
  0 <= 1 < opencl_cache_items ctx /\
  item_of in_order 1 = spec_cache_item (spec_cache_block seed in_order 1) /\
  item_of cache 1 <> spec_cache_item (spec_cache_block seed cache 1) /\
  get (item_of cache 1) 0 = 3019080347 /\
  get (spec_cache_item (spec_cache_block seed cache 1)) 0 = 1805728152.
Proof.
  cbv zeta.
  assert (Hi : 0 <= 1 < opencl_cache_items (ocl_init 0))
    by (rewrite opencl_cache_items_0; lia).
  split.
  { apply one_before_zero_permutation. pose proof cache_global_size_0. lia. }
  split; [exact Hi|].
  split.
  { apply (opencl_build_cache_in_order 0); [lia | reflexivity | reflexivity | exact Hi]. }
  destruct opencl_build_cache_one_before_zero as [H1 H0]. cbv zeta in H1, H0.
  rewrite opencl_seed_words_0.
  generalize dependent
    (opencl_build_cache (one_before_zero (cache_global_size (ocl_init 0)))
       zero_mem (ocl_init 0)).
  intros cache H1 H0.
  change (spec_cache_block (repeat 0 8) cache 1) with (item_of cache (1 - 1)).
  change (1 - 1) with 0.
  rewrite H1, H0, cache_item_1_stale, cache_item_1_chained.
  split; [discriminate|]. split; reflexivity.
Qed.


(* ================================================================== *)
(** ** The DAG builder: [generate_dag] *)

Lemma zip_with_length (f : Z -> Z -> Z) (a b : list Z) :
  length a = length b -> length (zip_with f a b) = length a.
Proof.
  revert b. induction a as [|x a IH]; intros [|y b] H; cbn in *; try lia.
  now rewrite IH by lia.
Qed.

(** Below 2^28 items on both sides, one work-item of [generate_dag] writes
    the item of section 4.4 into its own slot and nothing else. *)
Lemma generate_dag_item (cache : mem) (cache_size : Z) (dag : mem)
    (dag_items idx : Z) :
  1 <= cache_size < 268435456 ->
  0 <= idx < dag_items -> idx < 268435456 ->
  exists dag',
    generate_dag cache cache_size dag dag_items idx = Some dag' /\
    item_of dag' idx = spec_dag_item cache cache_size idx /\
    forall a, ~ (16 * idx <= a < 16 * idx + 16) -> dag' a = dag a.
Proof.
  intros Hcs Hidx Hsmall. unfold generate_dag.
  rewrite (u32_small idx) by (unfold two32; lia).
  destruct (Z.leb_spec dag_items idx) as [|_]; [lia|].
  destruct (Z.eqb_spec cache_size 0) as [|_]; [lia|].
  assert (Hm : mul32 cache_size 16 = 16 * cache_size).
  { unfold mul32. rewrite u32_small; unfold two32; lia. }
  rewrite Hm. destruct (Z.eqb_spec (16 * cache_size) 0) as [|_]; [lia|].
  cbv zeta. eexists. split; [reflexivity|].
  pose proof (Z.mod_pos_bound idx cache_size ltac:(lia)) as Hci.
  match goal with
  | |- context [for_range 0 256 ?body ?m0] =>
      set (mixf := for_range 0 256 body m0)
  end.
  assert (Hmix : mixf = spec_dag_item cache cache_size idx).
  { unfold mixf, spec_dag_item.
    rewrite (for_range_ext 0 16
               (fun i m =>
                  put m i (cache (add32 (mul32 (idx mod cache_size) 16) (Z.of_nat i)
                                  mod (16 * cache_size))))
               (fun i m => put m i (cache (16 * (idx mod cache_size) + Z.of_nat i)))).
    2:{ intros i x Hi. f_equal. f_equal. rewrite item_index by lia.
        apply Z.mod_small. lia. }
    change (for_range 0 16
              (fun i m => put m i (cache (16 * (idx mod cache_size) + Z.of_nat i)))
              (uninit 16))
      with (item_of cache (idx mod cache_size)).
    unfold get at 1.
    set (m1 := put (item_of cache (idx mod cache_size)) 0 _).
    unfold for_range at 1.
    apply (fold_left_ext_inv (fun m => length m = 16%nat)).
    - unfold m1. now rewrite length_put.
    - intros r x _ Hx.
      apply (for_range_inv (fun m => length m = 16%nat)); [exact Hx|].
      intros; now rewrite length_put.
    - intros r x _ Hx. cbv beta.
      set (parent := fnv1a (Z.lxor idx (Z.of_nat r)) (get x 0) mod cache_size).
      assert (Hp : 0 <= parent < cache_size) by (apply Z.mod_pos_bound; lia).
      change (nth 0 x 0) with (get x 0). fold parent.
      rewrite (for_range_ext 0 16
                 (fun i m' =>
                    put m' i (fnv1a (get m' i)
                                (cache (add32 (mul32 parent 16) (Z.of_nat i)))))
                 (fun i m' =>
                    put m' i (fnv1a (get m' i) (cache (16 * parent + Z.of_nat i))))).
      2:{ intros i y Hi. f_equal. f_equal. f_equal. apply item_index; lia. }
      clearbody parent. explode x Hx. reflexivity. }
  split.
  - rewrite <- Hmix. unfold item_of.
    transitivity (map (get mixf) (seq 0 16)).
    + apply map_ext_in. intros k Hk. apply in_seq in Hk.
      rewrite (for_range_ext 0 16 _
                 (fun i d => store d (16 * idx + Z.of_nat i) (get mixf i)))
        by (intros i x Hi; f_equal; apply item_index; lia).
      rewrite for_range_store.
      destruct (Z.leb_spec (16 * idx) (16 * idx + Z.of_nat k)); [|lia].
      destruct (Z.ltb_spec (16 * idx + Z.of_nat k) (16 * idx + Z.of_nat 16)); [|lia].
      cbn [andb]. f_equal. lia.
    + assert (Hl : length mixf = 16%nat).
      { rewrite Hmix. unfold spec_dag_item.
        set (m1 := put (item_of cache (idx mod cache_size)) 0 _).
        assert (Hm1 : length m1 = 16%nat) by (unfold m1; now rewrite length_put).
        revert Hm1. generalize m1. generalize (seq 0 256).
        intros l. induction l as [|r l IH]; intros m Hl; [exact Hl|].
        cbn [fold_left]. apply IH. rewrite zip_with_length; [exact Hl|].
        now rewrite Hl. }
      rewrite <- Hl at 1. apply map_get_seq.
  - intros a Ha.
    rewrite (for_range_ext 0 16 _
               (fun i d => store d (16 * idx + Z.of_nat i) (get mixf i)))
      by (intros i x Hi; f_equal; apply item_index; lia).
    rewrite for_range_store. change (Z.of_nat 16) with 16.
    destruct (Z.leb_spec (16 * idx) a), (Z.ltb_spec a (16 * idx + 16));
      cbn [andb]; try reflexivity; lia.
Qed.

(** C5 (fails on the code).  Epoch 20 has 2^29 DAG items and 2^23 cache
    items.  The work-item of index 2^28 computes its word offset
    [idx * 16] in 32 bits, where it wraps to 0: the item of section 4.4 for
    index 2^28 lands in slot 0, and slot 2^28 keeps what the buffer held
    (zeros, here). *)
Theorem generate_dag_index_wraps :
  match generate_dag index_mem 8388608 zero_mem 536870912 268435456 with
  | Some dag' =>
      item_of dag' 268435456 = repeat 0 16 /\
      item_of dag' 0 = spec_dag_item index_mem 8388608 268435456
  | None => False
  end /\
  spec_dag_item index_mem 8388608 268435456 <> repeat 0 16.
Proof. split; [vm_compute; split; reflexivity | vm_compute; discriminate]. Qed.

(* ================================================================== *)
(** ** The search kernel against section 4.5 *)

Lemma search_init_state_spec (header : list Z) (n : Z) :
  length header = 20%nat ->
  search_init_state header n = spec_seed_state header n.
Proof.
  intros H. unfold search_init_state, spec_seed_state.
  replace (u32 n) with (low32 n) by (now rewrite u32_mod).
  replace (u32 (Z.shiftr n 32)) with (high32 n)
    by (now rewrite u32_mod, Z.shiftr_div_pow2 by lia).
  generalize (low32 n) (high32 n). intros lo hi.
  explode header H. reflexivity.
Qed.

Lemma search_init_mix_spec (state : list Z) :
  search_init_mix state = spec_mix_init state.
Proof. reflexivity. Qed.

Lemma search_math_op_spec (st : list Z * kiss99_t) :
  search_math_op st = spec_random_op st.
Proof.
  destruct st as [mix rng]. unfold search_math_op, spec_random_op. cbn [fst snd].
  destruct (kiss99_next rng) as [r1 g1].
  destruct (kiss99_next g1) as [r2 g2].
  destruct (kiss99_next g2) as [r3 g3].
  destruct (kiss99_next g3) as [r4 g4].
  reflexivity.
Qed.

Lemma for_range_const {S : Type} (lo n : nat) (f : S -> S) (s : S) :
  for_range lo n (fun _ x => f x) s = iterate n f s.
Proof.
  revert lo s. induction n as [|n IH]; intros lo s; [reflexivity|].
  unfold for_range in *. cbn [seq fold_left iterate]. apply IH.
Qed.

Lemma length_iterate_math (n : nat) (st : list Z * kiss99_t) :
  length (fst (iterate n spec_random_op st)) = length (fst st).
Proof.
  revert st. induction n as [|n IH]; intros st; [reflexivity|].
  cbn [iterate]. rewrite IH. unfold spec_random_op.
  destruct (kiss99_next (snd st)) as [r1 g1].
  destruct (kiss99_next g1) as [r2 g2].
  destruct (kiss99_next g2) as [r3 g3].
  destruct (kiss99_next g3) as [r4 g4].
  cbn [fst]. apply length_put.
Qed.

(** One round of the kernel is one round of section 4.5 while the word
    offsets of the DAG fit 32 bits. *)
Lemma search_round_spec (dag : mem) (n : Z) (round : nat) (st : list Z * kiss99_t) :
  1 <= n <= 268435456 ->
  length (fst st) = 64%nat ->
  search_round dag n round st = spec_round dag n round st /\
  length (fst (search_round dag n round st)) = 64%nat.
Proof.
  intros Hn Hlen. destruct st as [mix rng]. cbn [fst] in Hlen.
  assert (Heq : search_round dag n round (mix, rng) = spec_round dag n round (mix, rng)).
  { unfold search_round, spec_round. cbn [fst snd].
    change (Z.of_nat MIX_WORDS) with 64. unfold MIX_WORDS, MATH_OPS.
    change (nth (round mod 64) mix 0) with (get mix (round mod 64)).
    change (nth ((round + 1) mod 64) mix 0) with (get mix ((round + 1) mod 64)).
    set (dag_idx := fnv1a _ _ mod n).
    assert (Hd : 0 <= dag_idx < n) by (apply Z.mod_pos_bound; lia).
    rewrite (for_range_ext 0 16 (fun _ s => search_math_op s)
               (fun _ s => spec_random_op s))
      by (intros; apply search_math_op_spec).
    rewrite for_range_const. f_equal. f_equal.
    rewrite (map_ext_in _ (fun i => dag (16 * dag_idx + Z.of_nat i)))
      by (intros i Hi; apply in_seq in Hi; f_equal; apply item_index; lia).
    clearbody dag_idx. unfold item_of.
    explode mix Hlen. reflexivity. }
  split; [exact Heq|]. rewrite Heq. unfold spec_round.
  rewrite length_iterate_math. cbn [fst].
  rewrite length_app, zip_with_length, length_firstn, length_skipn;
    rewrite ?length_firstn, ?length_item_of; cbn [fst] in *; lia.
Qed.

Lemma spec_compress_u32 (mix : list Z) : Forall is_u32 (spec_compress mix).
Proof. repeat constructor; apply is_u32_fnv1a. Qed.

Lemma search_loop_spec (dag : mem) (n : Z) (st : list Z * kiss99_t) :
  1 <= n <= 268435456 ->
  length (fst st) = 64%nat ->
  for_range 0 DAG_LOADS (search_round dag n) st
  = fold_left (fun st round => spec_round dag n round st) (seq 0 64) st.
Proof.
  intros Hn Hlen. unfold DAG_LOADS.
  rewrite (fold_left_for_range (fun st round => spec_round dag n round st)).
  apply (for_range_ext_inv (fun st => length (fst st) = 64%nat)).
  - exact Hlen.
  - intros i x _ Hx. now apply search_round_spec.
  - intros i x _ Hx. now apply search_round_spec.
Qed.

Lemma search_finish_spec (mix state : list Z) :
  length state = 25%nat ->
  for_range 8 17 (fun i s => put s i 0) (search_compress mix state)
  = spec_compress mix ++ repeat 0 17.
Proof. intros H. explode state H. reflexivity. Qed.

Lemma hash_high_combine (final : list Z) :
  Forall is_u32 final ->
  Z.lor (u64 (Z.shiftl (get final 0) 32)) (get final 1)
  = Z.lor (Z.shiftl (nth 0 final 0) 32) (nth 1 final 0).
Proof.
  intros Hu. unfold get. rewrite shiftl_u64; [reflexivity|].
  apply is_u32_range. exact (Forall_get is_u32 final 0 Hu is_u32_0).
Qed.

Lemma spec_final_u32 (mix : list Z) :
  Forall is_u32 (keccak_f800 (spec_compress mix ++ repeat 0 17)).
Proof.
  apply keccak_f800_u32, Forall_app. split; [apply spec_compress_u32|].
  repeat constructor.
Qed.

Lemma length_spec_state (header : list Z) (nonce0 : Z) :
  length header = 20%nat ->
  length (keccak_f800 (spec_seed_state header nonce0)) = 25%nat.
Proof.
  intros H. unfold spec_seed_state.
  rewrite length_keccak_f800, length_app, length_firstn. cbn [length]. lia.
Qed.

(** With at most 2^28 DAG items the kernel computes the [hash_high] of
    section 4.5. *)
Lemma search_hash_high_spec (dag : mem) (header : list Z) (n nonce0 : Z) :
  length header = 20%nat ->
  1 <= n <= 268435456 ->
  search_hash_high dag header n nonce0 = spec_hash_high dag header n nonce0.
Proof.
  intros Hh Hn. unfold search_hash_high, spec_hash_high.
  rewrite search_init_state_spec by exact Hh.
  rewrite search_init_mix_spec.
  rewrite search_loop_spec by (try exact Hn; reflexivity).
  rewrite search_finish_spec by now apply length_spec_state.
  apply hash_high_combine, spec_final_u32.
Qed.

Lemma spec_hash_high_range (dag : mem) (header : list Z) (n nonce : Z) :
  0 <= spec_hash_high dag header n nonce < two64.
Proof.
  unfold spec_hash_high.
  generalize (spec_final_u32
                (fst (fold_left (fun st round => spec_round dag n round st) (seq 0 64)
                        (spec_mix_init (keccak_f800 (spec_seed_state header nonce)),
                         spec_rng_seed (keccak_f800 (spec_seed_state header nonce)))))).
  generalize (keccak_f800
                (spec_compress
                   (fst (fold_left (fun st round => spec_round dag n round st) (seq 0 64)
                           (spec_mix_init (keccak_f800 (spec_seed_state header nonce)),
                            spec_rng_seed (keccak_f800 (spec_seed_state header nonce)))))
                 ++ repeat 0 17)).
  intros final Hu.
  assert (H0 : 0 <= nth 0 final 0 < two32)
    by (apply is_u32_range; exact (Forall_get is_u32 final 0 Hu is_u32_0)).
  assert (H1 : 0 <= nth 1 final 0 < two32)
    by (apply is_u32_range; exact (Forall_get is_u32 final 1 Hu is_u32_0)).
  rewrite <- (shiftl_u64 (nth 0 final 0)) by exact H0.
  rewrite lor_halves by assumption.
  unfold two32, two64 in *. lia.
Qed.

(** Two evaluations: header of zeros, nonce 0, a DAG of 2^29 items
    (epoch 20) whose item [j] holds [j]. *)
Lemma search_hash_high_epoch20 :
  search_hash_high index_mem zero_header 536870912 0 = 1523008074053949516.
Proof. vm_compute. reflexivity. Qed.

Lemma spec_hash_high_epoch20 :
  spec_hash_high index_mem zero_header 536870912 0 = 5854306496245153500.
Proof. vm_compute. reflexivity. Qed.

(** C2 (fails on the code).  With 2^29 DAG items (epoch 20) the kernel's
    word offset [dag_idx * 16] wraps at 2^32, so a round whose index is
    2^28 or more loads another item than section 4.5 names.  For the
    header of zeros, nonce 0 and the DAG whose item [j] holds [j], the
    kernel's [hash_high] differs from the specified one, and for a target
    between the two the kernel records a nonce that does not pass. *)
Theorem search_dag_index_wraps :
  search_hash_high index_mem zero_header 536870912 0
    <> spec_hash_high index_mem zero_header 536870912 0 /\
  (exists out,
     adaptivepow_search index_mem 0 zero_header 1523008074053949516 536870912
       (mkOut zero_mem 0) 0 = Some out /\
     result_count out = 1) /\
  spec_passes index_mem zero_header 536870912 0 1523008074053949516 = false.
Proof.
  split; [|split].
  - rewrite search_hash_high_epoch20, spec_hash_high_epoch20. discriminate.
  - unfold adaptivepow_search.
    change (u64 (0 + u32 0)) with 0. change (536870912 =? 0) with false.
    cbv zeta iota. rewrite search_hash_high_epoch20.
    eexists. split; reflexivity.
  - unfold spec_passes. rewrite spec_hash_high_epoch20. reflexivity.
Qed.

(* ================================================================== *)
(** ** Result collection: the kernel's slots and the host's read-back *)

Section ResultProtocol.

Variables (dag : mem) (start : Z) (header : list Z) (tgt dag_size : Z).
Hypothesis dag_size_nonzero : dag_size <> 0.

Local Abbreviation passes := (work_item_passes dag start header tgt dag_size).
Local Abbreviation step := (adaptivepow_search dag start header tgt dag_size).

Lemma adaptivepow_search_step (out : search_out) (gid : Z) :
  step out gid =
  Some (if passes gid then
          if result_count out <? 16 then
            mkOut (store (store (results out) (mul32 (result_count out) 2)
                            (u32 (work_item_nonce start gid)))
                     (add32 (mul32 (result_count out) 2) 1)
                     (u32 (Z.shiftr (work_item_nonce start gid) 32)))
                  (add32 (result_count out) 1)
          else mkOut (results out) (add32 (result_count out) 1)
        else out).
Proof.
  unfold adaptivepow_search, work_item_passes, work_item_nonce.
  destruct (Z.eqb_spec dag_size 0) as [E|_]; [contradiction|].
  destruct (_ <=? tgt); [|reflexivity].
  destruct (result_count out <? 16); reflexivity.
Qed.

Lemma launch_search_cons (gid : Z) (order : list Z) (out : search_out) :
  launch_search (gid :: order) dag start header tgt dag_size out =
  match step out gid with
  | Some o => launch_search order dag start header tgt dag_size o
  | None => None
  end.
Proof.
  unfold launch_search. cbn [fold_left].
  destruct (step out gid) as [o|]; [reflexivity|].
  induction order as [|g l IH]; [reflexivity | exact IH].
Qed.

(** The counter counts the passing work-items; slots 0 and 1 are written
    by the first of them only. *)
Lemma launch_search_slots (order : list Z) (out : search_out) :
  0 <= result_count out ->
  result_count out + Z.of_nat (length order) < two32 ->
  exists out',
    launch_search order dag start header tgt dag_size out = Some out' /\
    result_count out'
      = result_count out + Z.of_nat (length (filter passes order)) /\
    (0 < result_count out ->
       results out' 0 = results out 0 /\ results out' 1 = results out 1) /\
    (result_count out = 0 ->
       match find passes order with
       | Some g =>
           results out' 0 = u32 (work_item_nonce start g) /\
           results out' 1 = u32 (Z.shiftr (work_item_nonce start g) 32)
       | None => results out' 0 = results out 0 /\ results out' 1 = results out 1
       end).
Proof.
  revert out. induction order as [|gid order IH]; intros out H0 Hlen.
  - exists out. cbn. repeat split; lia.
  - rewrite launch_search_cons, adaptivepow_search_step.
    cbn [length] in Hlen. rewrite Nat2Z.inj_succ in Hlen.
    cbn [filter find]. destruct (passes gid) eqn:Hp.
    + assert (Hc : add32 (result_count out) 1 = result_count out + 1).
      { apply u32_small. lia. }
      destruct (Z.ltb_spec (result_count out) 16) as [Hlt|Hge].
      * assert (Hm : mul32 (result_count out) 2 = 2 * result_count out).
        { unfold mul32. rewrite u32_small; unfold two32 in *; lia. }
        rewrite Hm, Hc. unfold add32.
        rewrite (u32_small (2 * result_count out + 1)) by (unfold two32; lia).
        match goal with |- context [launch_search _ _ _ _ _ _ ?o] =>
          destruct (IH o) as (out' & Hrun & Hcnt & Hpos & _) end;
          cbn [result_count results] in *; [lia | lia |].
        exists out'. split; [exact Hrun|]. split; [cbn [length]; lia|].
        destruct Hpos as [Hs0 Hs1]; [lia|]. unfold store in Hs0, Hs1.
        split.
        -- intros Hgt. rewrite Hs0, Hs1.
           destruct (Z.eqb_spec 0 (2 * result_count out + 1)); [lia|].
           destruct (Z.eqb_spec 0 (2 * result_count out)); [lia|].
           destruct (Z.eqb_spec 1 (2 * result_count out + 1)); [lia|].
           destruct (Z.eqb_spec 1 (2 * result_count out)); [lia|].
           split; reflexivity.
        -- intros Hz. rewrite Hs0, Hs1, Hz. cbn. split; reflexivity.
      * rewrite Hc.
        match goal with |- context [launch_search _ _ _ _ _ _ ?o] =>
          destruct (IH o) as (out' & Hrun & Hcnt & Hpos & _) end;
          cbn [result_count results] in *; [lia | lia |].
        exists out'. split; [exact Hrun|]. split; [cbn [length]; lia|].
        split; [intros _; apply Hpos; lia | intros Hz; lia].
    + destruct (IH out H0) as (out' & Hrun & Hcnt & Hpos & Hzero); [lia|].
      exists out'. repeat split; try assumption; try apply Hpos; try assumption.
      all: try (apply Hzero; assumption).
Qed.

End ResultProtocol.

(** Below 2^28 DAG items a work-item bumps the counter exactly when the
    [hash_high] of section 4.5 for its nonce is at most the target, and
    stores its nonce if it is one of the first 16 to do so. *)
Lemma adaptivepow_search_spec (dag : mem) (start : Z) (header : list Z)
    (tgt n : Z) (out : search_out) (gid : Z) :
  length header = 20%nat ->
  1 <= n <= 268435456 ->
  adaptivepow_search dag start header tgt n out gid =
  Some (if spec_passes dag header n (work_item_nonce start gid) tgt then
          if result_count out <? 16 then
            mkOut (store (store (results out) (mul32 (result_count out) 2)
                            (u32 (work_item_nonce start gid)))
                     (add32 (mul32 (result_count out) 2) 1)
                     (u32 (Z.shiftr (work_item_nonce start gid) 32)))
                  (add32 (result_count out) 1)
          else mkOut (results out) (add32 (result_count out) 1)
        else out).
Proof.
  intros Hh Hn.
  rewrite adaptivepow_search_step by lia.
  unfold work_item_passes, spec_passes.
  now rewrite search_hash_high_spec.
Qed.

(** Without a generated DAG the call reports nothing and counts nothing. *)
Lemma adaptivepow_opencl_search_not_ready (exec : executor) (ctx : option OpenCLContext)
    (header : list Z) (tgt start fn0 hc0 : Z) :
  match ctx with
  | None => True
  | Some c => ocl_dagReady c = false
  end ->
  let r := adaptivepow_opencl_search exec ctx header tgt start fn0 hc0 in
  ret r = -1 /\ foundNonce r = fn0 /\ hashCount r = hc0 /\ launched r = [].
Proof.
  intros H. unfold adaptivepow_opencl_search.
  destruct ctx as [c|]; [rewrite H|]; repeat split.
Qed.

Lemma find_filter_length {A : Type} (p : A -> bool) (l : list A) :
  match find p l with
  | Some _ => (0 < length (filter p l))%nat
  | None => length (filter p l) = 0%nat
  end.
Proof.
  induction l as [|a l IH]; [reflexivity|].
  cbn. destruct (p a); [cbn; lia | exact IH].
Qed.

(** What the host makes of the device buffers, for any dispatch outcome. *)
Lemma adaptivepow_opencl_search_readback (exec : executor) (c : OpenCLContext)
    (header : list Z) (tgt start fn0 hc0 : Z) :
  ocl_dagReady c = true ->
  let dev := exec (dagBuffer c) start header tgt (u32 (ocl_dagSize c / HASH_BYTES))
               (mkOut (resultsBuffer c) 0) in
  let r := adaptivepow_opencl_search exec (Some c) header tgt start fn0 hc0 in
  hashCount r = BATCH_SIZE /\
  (0 < result_count dev ->
     ret r = 1 /\
     foundNonce r = Z.lor (u64 (Z.shiftl (results dev 1) 32)) (results dev 0)) /\
  (result_count dev <= 0 -> ret r = 0 /\ foundNonce r = fn0).
Proof.
  intros Hr. cbv zeta. unfold adaptivepow_opencl_search.
  rewrite Hr. cbn [negb]. rewrite Z.gtb_ltb.
  destruct (Z.ltb_spec 0 (result_count
     (exec (dagBuffer c) start header tgt (u32 (ocl_dagSize c / HASH_BYTES))
        (mkOut (resultsBuffer c) 0)))) as [Hpos|Hle]; cbn [ret foundNonce hashCount].
  - split; [reflexivity|]. split; [intros _; split; reflexivity | lia].
  - split; [reflexivity|]. split; [lia | intros _; split; reflexivity].
Qed.

(** C10.  A search call hands at most one nonce to its caller.  Whatever
    the dispatch left in the buffers, the call returns 1 exactly when the
    counter is positive and then [foundNonce] is read from result slots 0
    and 1 alone.  With the work-items taking their turn at the counter in
    any order, that is the nonce of the first passing work-item of that
    order, however many pass; the others are not reported. *)
Theorem opencl_search_reports_one_nonce (order : list Z) (c : OpenCLContext)
    (header : list Z) (tgt start fn0 hc0 : Z) :
  ocl_dagReady c = true ->
  u32 (ocl_dagSize c / HASH_BYTES) <> 0 ->
  Z.of_nat (length order) < two32 ->
  let n := u32 (ocl_dagSize c / HASH_BYTES) in
  (forall exec : executor,
     let dev := exec (dagBuffer c) start header tgt n (mkOut (resultsBuffer c) 0) in
     let r := adaptivepow_opencl_search exec (Some c) header tgt start fn0 hc0 in
     hashCount r = BATCH_SIZE /\
     (0 < result_count dev ->
        ret r = 1 /\
        foundNonce r = Z.lor (u64 (Z.shiftl (results dev 1) 32)) (results dev 0)) /\
     (result_count dev <= 0 -> ret r = 0 /\ foundNonce r = fn0)) /\
  launch_search order (dagBuffer c) start header tgt n (mkOut (resultsBuffer c) 0)
    <> None /\
  let r := adaptivepow_opencl_search (search_executor order) (Some c) header tgt
             start fn0 hc0 in
  match find (work_item_passes (dagBuffer c) start header tgt n) order with
  | Some g => ret r = 1 /\ foundNonce r = work_item_nonce start g
  | None => ret r = 0 /\ foundNonce r = fn0
  end.
Proof.
  intros Hr Hn Hlen. cbv zeta.
  split; [intros exec; now apply adaptivepow_opencl_search_readback|].
  destruct (launch_search_slots (dagBuffer c) start header tgt
              (u32 (ocl_dagSize c / HASH_BYTES)) Hn order
              (mkOut (resultsBuffer c) 0))
    as (out' & Hrun & Hcnt & _ & Hslots); cbn [result_count]; [lia | lia |].
  split; [rewrite Hrun; discriminate|].
  destruct (adaptivepow_opencl_search_readback (search_executor order) c header tgt
              start fn0 hc0 Hr) as (_ & Hfound & Hnone).
  assert (Hdev : search_executor order (dagBuffer c) start header tgt
                   (u32 (ocl_dagSize c / HASH_BYTES)) (mkOut (resultsBuffer c) 0)
                 = out') by (unfold search_executor; now rewrite Hrun).
  rewrite Hdev in Hfound, Hnone.
  specialize (Hslots eq_refl). cbn [result_count] in Hcnt.
  pose proof (find_filter_length
                (work_item_passes (dagBuffer c) start header tgt
                   (u32 (ocl_dagSize c / HASH_BYTES))) order) as Hff.
  destruct (find _ order) as [g|].
  - destruct Hfound as [Hret Hfn]; [lia|]. split; [exact Hret|].
    rewrite Hfn. destruct Hslots as [-> ->].
    apply split_halves, u64_range.
  - apply Hnone. lia.
Qed.

Lemma opencl_search_reports_one_nonce_witness :
  ocl_dagReady ocl_ready = true /\
  u32 (ocl_dagSize ocl_ready / HASH_BYTES) <> 0 /\
  Z.of_nat (length [2; 0; 1]) < two32 /\
  launch_search [2; 0; 1] (dagBuffer ocl_ready) 0 zero_header (two64 - 1)
    (u32 (ocl_dagSize ocl_ready / HASH_BYTES)) (mkOut (resultsBuffer ocl_ready) 0)
    <> None.
Proof.
  assert (H1 : ocl_dagReady ocl_ready = true) by reflexivity.
  assert (H2 : u32 (ocl_dagSize ocl_ready / HASH_BYTES) <> 0) by discriminate.
  assert (H3 : Z.of_nat (length [2; 0; 1]) < two32) by reflexivity.
  destruct (opencl_search_reports_one_nonce [2; 0; 1] ocl_ready zero_header
              (two64 - 1) 0 0 0 H1 H2 H3) as (_ & Hdef & _).
  split; [exact H1|]. split; [exact H2|]. split; [exact H3|]. exact Hdef.
Defined.

(* ================================================================== *)
(** ** The batch driver: [miner_submit_job] *)

Lemma BATCH_SIZE_eq : BATCH_SIZE = 2097152.
Proof. reflexivity. Qed.

Lemma map_seq_from {A : Type} (f : nat -> A) (a m : nat) :
  map f (seq a m) = map (fun k => f (a + k)%nat) (seq 0 m).
Proof.
  revert f a. induction m as [|m IH]; intros f a; simpl; [reflexivity|].
  f_equal; [f_equal; lia|].
  rewrite (IH f (S a)), (IH (fun k => f (a + k)%nat) 1%nat).
  apply map_ext. intros k. f_equal. lia.
Qed.

Lemma zinterval_app (s : Z) (n m : nat) :
  zinterval s n ++ zinterval (s + Z.of_nat n) m = zinterval s (n + m).
Proof.
  unfold zinterval. rewrite seq_app, map_app. f_equal.
  rewrite (map_seq_from _ (0 + n) m). apply map_ext. intros k. lia.
Qed.

Lemma zinterval_In (s : Z) (n : nat) (x : Z) :
  In x (zinterval s n) <-> s <= x < s + Z.of_nat n.
Proof.
  unfold zinterval. rewrite in_map_iff. split.
  - intros (k & <- & Hk). apply in_seq in Hk. lia.
  - intros H. exists (Z.to_nat (x - s)). split; [lia|]. apply in_seq. lia.
Qed.

Lemma zinterval_NoDup (s : Z) (n : nat) : NoDup (zinterval s n).
Proof.
  unfold zinterval. apply Finite.Injective_map_NoDup; [|apply seq_NoDup].
  intros a b H. lia.
Qed.

(** Inside the 64-bit range the nonces of a launch are the interval
    [start, start + BATCH_SIZE). *)
Lemma batch_nonces_interval (start : Z) :
  0 <= start -> start + BATCH_SIZE <= two64 ->
  batch_nonces start = zinterval start (Z.to_nat BATCH_SIZE).
Proof.
  intros H0 H1. unfold batch_nonces, zinterval.
  apply map_ext_in. intros k Hk. apply in_seq in Hk.
  rewrite BATCH_SIZE_eq in *.
  rewrite (u32_small (Z.of_nat k)) by (unfold two32; lia).
  apply u64_small. unfold two64 in *. lia.
Qed.

(** One call on a ready context, whatever the dispatch reports: both
    counters move by [BATCH_SIZE], the launch covers [batch_nonces], and
    the context stays ready. *)
Lemma miner_submit_job_ready (exec : executor) (c : MinerContext) (job : MiningJob) :
  ready c ->
  exists c',
    sub_ctx (miner_submit_job exec (Some c) (Some job)) = Some c' /\
    ready c' /\
    currentNonce c' = u64 (currentNonce c + BATCH_SIZE) /\
    totalHashes c' = u64 (totalHashes c + BATCH_SIZE) /\
    sub_launched (miner_submit_job exec (Some c) (Some job))
      = batch_nonces (currentNonce c).
Proof.
  intros (Hd & Hc & o & Hg & Ho).
  unfold miner_submit_job, adaptivepow_opencl_search.
  rewrite Hd, Hc, Hg, Ho. cbn [negb].
  destruct (result_count _ >? 0); cbn; eexists; (split; [reflexivity|]);
    repeat split; try reflexivity; eexists; split; cbn; eauto.
Qed.

Lemma u64_add_l (a b : Z) : u64 (u64 a + b) = u64 (a + b).
Proof. rewrite !u64_mod. apply Zplus_mod_idemp_l. Qed.

(** C6 (as stated, false).  From [currentNonce = 2^64 - BATCH_SIZE] one
    batch takes the cursor to 0: it does not advance. *)
Lemma current_nonce_wraps :
  exists c',
    sub_ctx (miner_submit_job exec_none (Some (miner_at (two64 - BATCH_SIZE)))
               (Some (job_zero 0))) = Some c' /\
    currentNonce c' = 0 /\
    currentNonce c' < currentNonce (miner_at (two64 - BATCH_SIZE)).
Proof.
  destruct (miner_submit_job_ready exec_none (miner_at (two64 - BATCH_SIZE)) (job_zero 0))
    as (c' & Hc' & _ & Hn & _).
  - repeat split. exists ocl_ready. split; reflexivity.
  - exists c'. split; [exact Hc'|]. rewrite Hn. split; reflexivity.
Qed.

(** C6 (amended).  On a ready context, for [N] successive batches of one
    job that stay inside the 64-bit nonce range: after batch [k] the
    cursor is [start + k * BATCH_SIZE], so it grows with every batch;
    [totalHashes] has grown by [k * BATCH_SIZE] (modulo 2^64), whatever
    each dispatch reported; and the nonces hashed are the interval
    [start, start + N * BATCH_SIZE), each once. *)
Theorem submit_batches_interval (execs : list executor) (c : MinerContext)
    (job : MiningJob) :
  ready c ->
  0 <= currentNonce c ->
  currentNonce c + Z.of_nat (length execs) * BATCH_SIZE < two64 ->
  let start := currentNonce c in
  let ctxs := fst (submit_batches execs (Some c) job) in
  let probed := snd (submit_batches execs (Some c) job) in
  length ctxs = length execs /\
  (forall k, (k < length execs)%nat ->
     exists c', nth_error ctxs k = Some (Some c') /\
       currentNonce c' = start + Z.of_nat (S k) * BATCH_SIZE /\
       totalHashes c' = u64 (totalHashes c + Z.of_nat (S k) * BATCH_SIZE)) /\
  probed = zinterval start (length execs * Z.to_nat BATCH_SIZE) /\
  NoDup probed /\
  (forall x, In x probed <->
             start <= x < start + Z.of_nat (length execs) * BATCH_SIZE).
Proof.
  intros Hready H0 Hfit. cbv zeta.
  assert (Hmain :
    length (fst (submit_batches execs (Some c) job)) = length execs /\
    (forall k, (k < length execs)%nat ->
       exists c', nth_error (fst (submit_batches execs (Some c) job)) k = Some (Some c') /\
         currentNonce c' = currentNonce c + Z.of_nat (S k) * BATCH_SIZE /\
         totalHashes c' = u64 (totalHashes c + Z.of_nat (S k) * BATCH_SIZE)) /\
    snd (submit_batches execs (Some c) job)
      = zinterval (currentNonce c) (length execs * Z.to_nat BATCH_SIZE)).
  { revert c Hready H0 Hfit.
    induction execs as [|e es IH]; intros c Hready H0 Hfit.
    - cbn. repeat split. intros k Hk. inversion Hk.
    - destruct (miner_submit_job_ready e c job Hready)
        as (c1 & Hc1 & Hr1 & Hn1 & Ht1 & Hl1).
      cbn [length] in Hfit. rewrite Nat2Z.inj_succ in Hfit.
      assert (HB : 0 < BATCH_SIZE) by reflexivity.
      assert (Hn1' : currentNonce c1 = currentNonce c + BATCH_SIZE).
      { rewrite Hn1. apply u64_small. nia. }
      cbn [submit_batches]. rewrite Hc1, Hl1.
      destruct (submit_batches es (Some c1) job) as [ctxs ns] eqn:Hrec.
      assert (Hc1pos : 0 <= currentNonce c1) by lia.
      assert (Hc1fit : currentNonce c1 + Z.of_nat (length es) * BATCH_SIZE < two64)
        by lia.
      specialize (IH c1 Hr1 Hc1pos Hc1fit).
      rewrite Hrec in IH. cbn [fst snd] in IH |- *.
      destruct IH as (IHlen & IHk & IHns).
      split; [cbn; now rewrite IHlen|]. split.
      + intros [|k] Hk.
        * exists c1. cbn [nth_error]. split; [reflexivity|].
          change (Z.of_nat 1) with 1. split; [lia|].
          rewrite Ht1. f_equal; lia.
        * destruct (IHk k) as (c' & Hnth & Hcn & Hct); [cbn in Hk; lia|].
          exists c'. cbn [nth_error]. split; [exact Hnth|]. split.
          -- rewrite Hcn, Hn1'. lia.
          -- rewrite Hct, Ht1, u64_add_l. f_equal; lia.
      + rewrite IHns, Hn1', batch_nonces_interval by nia.
        replace (currentNonce c + BATCH_SIZE)
          with (currentNonce c + Z.of_nat (Z.to_nat BATCH_SIZE)) by lia.
        rewrite zinterval_app. apply (f_equal (zinterval (currentNonce c))).
        change (length (e :: es)) with (S (length es)).
        rewrite Nat.mul_succ_l. apply Nat.add_comm. }
  destruct Hmain as (Hlen & Hk & Hns).
  split; [exact Hlen|]. split; [exact Hk|]. split; [exact Hns|].
  rewrite Hns. split; [apply zinterval_NoDup|].
  intros x. rewrite zinterval_In.
  rewrite Nat2Z.inj_mul, Z2Nat.id by (rewrite BATCH_SIZE_eq; lia). reflexivity.
Qed.

Lemma submit_batches_interval_witness :
  ready (miner_at 0) /\
  0 <= currentNonce (miner_at 0) /\
  currentNonce (miner_at 0) + Z.of_nat (length [exec_none; exec_none]) * BATCH_SIZE < two64 /\
  snd (submit_batches [exec_none; exec_none] (Some (miner_at 0)) (job_zero 0))
    = zinterval (currentNonce (miner_at 0))
        (length [exec_none; exec_none] * Z.to_nat BATCH_SIZE) /\
  NoDup (snd (submit_batches [exec_none; exec_none] (Some (miner_at 0)) (job_zero 0))).
Proof.
  assert (H1 : ready (miner_at 0)).
  { repeat split. exists ocl_ready. split; reflexivity. }
  assert (H2 : 0 <= currentNonce (miner_at 0)) by (cbn; lia).
  assert (H3 : currentNonce (miner_at 0)
               + Z.of_nat (length [exec_none; exec_none]) * BATCH_SIZE < two64)
    by reflexivity.
  destruct (submit_batches_interval [exec_none; exec_none] (miner_at 0) (job_zero 0)
              H1 H2 H3) as (_ & _ & Hp & Hnd & _).
  split; [exact H1|]. split; [exact H2|]. split; [exact H3|].
  split; [exact Hp | exact Hnd].
Defined.

(* ================================================================== *)
(** ** The verifier *)

Lemma job_header_zero (tgt : Z) : job_header (job_zero tgt) = zero_header.
Proof. reflexivity. Qed.

Lemma spec_hash_high_zero_dag :
  spec_hash_high zero_mem zero_header 16777216 0 = 7313841957546234544.
Proof. vm_compute. reflexivity. Qed.

(** C1 (fails on the code).  [verify_solution] returns the [found] flag
    of the result it is given and recomputes nothing.  For the job of
    zeros with the largest target every nonce passes the recomputation on
    every DAG, yet a result with [found = false] is refused; with target 0
    and the all-zero DAG of epoch 0, nonce 0 does not pass, yet a result
    with [found = true] is accepted. *)
Theorem verify_solution_is_found_flag :
  (forall (dag : mem) (n_dag nonce0 : Z),
     spec_passes dag (job_header (job_zero (two64 - 1))) n_dag nonce0
       (target (job_zero (two64 - 1))) = true /\
     verify_solution (job_zero (two64 - 1)) (mkResult [] nonce0 false) = false) /\
  spec_passes zero_mem (job_header (job_zero 0)) 16777216 0 (target (job_zero 0))
    = false /\
  verify_solution (job_zero 0) (mkResult [] 0 true) = true.
Proof.
  split; [|split].
  - intros dag n_dag nonce0. split; [|reflexivity].
    unfold spec_passes. apply Z.leb_le.
    pose proof (spec_hash_high_range dag (job_header (job_zero (two64 - 1)))
                  n_dag nonce0).
    cbn [target job_zero]. lia.
  - unfold spec_passes. rewrite job_header_zero, spec_hash_high_zero_dag.
    reflexivity.
  - reflexivity.
Qed.

(* ================================================================== *)
(** * Further properties of the sources *)

(** ** Epochs and dataset sizes *)

Lemma getDagSize_pow (e : Z) :
  0 <= e -> getDagSize e = 2 ^ (30 + Z.min (e / 4) 10).
Proof.
  intros He. unfold getDagSize, GROWTH_RATE, DAG_BASE_SIZE. cbv zeta.
  assert (Hq : 0 <= e / 4) by (apply Z.div_pos; lia).
  rewrite Z.gtb_ltb.
  assert (Hd : (if 10 <? e / 4 then 10 else e / 4) = Z.min (e / 4) 10).
  { destruct (Z.ltb_spec 10 (e / 4)); lia. }
  rewrite Hd.
  assert (Hm : 0 <= Z.min (e / 4) 10 <= 10) by lia.
  rewrite Z.shiftl_mul_pow2 by lia. change (Z.shiftl 1 30) with (2 ^ 30).
  rewrite <- Z.pow_add_r by lia.
  apply u64_small. split; [apply Z.pow_nonneg; lia|].
  apply Z.lt_le_trans with (2 ^ 41); [apply Z.pow_lt_mono_r; lia | unfold two64; lia].
Qed.

(** X1.  The DAG size never shrinks from one epoch to the next, lies
    between 2^30 and 2^40 bytes, and is a multiple of 64 * 64, so both the
    DAG and the cache (a 64th of it) are whole numbers of 64-byte items. *)
Theorem getDagSize_monotone (e e' : Z) :
  0 <= e <= e' ->
  getDagSize e <= getDagSize e' /\
  2 ^ 30 <= getDagSize e <= 2 ^ 40 /\
  getDagSize e mod (64 * 64) = 0.
Proof.
  intros H. rewrite !getDagSize_pow by lia.
  assert (Hq : 0 <= e / 4) by (apply Z.div_pos; lia).
  assert (Hqq : e / 4 <= e' / 4) by (apply Z.div_le_mono; lia).
  repeat split.
  - apply Z.pow_le_mono_r; lia.
  - apply Z.pow_le_mono_r; lia.
  - apply Z.pow_le_mono_r; lia.
  - replace (30 + Z.min (e / 4) 10) with (18 + Z.min (e / 4) 10 + 12) by lia.
    rewrite Z.pow_add_r by lia. change (2 ^ 12) with (64 * 64).
    apply Z.mod_mul. lia.
Qed.

Lemma getDagSize_monotone_witness :
  0 <= 3 <= 44 /\ getDagSize 3 <= getDagSize 44.
Proof.
  assert (H : 0 <= 3 <= 44) by lia.
  split; [exact H|].
  exact (proj1 (getDagSize_monotone 3 44 H)).
Defined.

Lemma dag_items_zero_iff (e : Z) :
  0 <= e -> (u32 (getDagSize e / HASH_BYTES) = 0 <-> 32 <= e).
Proof.
  intros He.
  assert (Hq : 0 <= e / 4) by (apply Z.div_pos; lia).
  assert (Hitems : getDagSize e / HASH_BYTES = 2 ^ (24 + Z.min (e / 4) 10)).
  { rewrite getDagSize_pow by lia. unfold HASH_BYTES.
    replace (30 + Z.min (e / 4) 10) with (24 + Z.min (e / 4) 10 + 6) by lia.
    rewrite Z.pow_add_r by lia. change (2 ^ 6) with 64.
    apply Z.div_mul. lia. }
  rewrite Hitems, u32_mod. split.
  - intros Hz.
    destruct (Z.lt_ge_cases e 32) as [Hlt|]; [|assumption].
    assert (e / 4 < 8) by (apply Z.div_lt_upper_bound; lia).
    rewrite Z.mod_small in Hz.
    + pose proof (Z.pow_pos_nonneg 2 (24 + Z.min (e / 4) 10)). lia.
    + split; [apply Z.pow_nonneg; lia|].
      change two32 with (2 ^ 32). apply Z.pow_lt_mono_r; lia.
  - intros Hge.
    assert (8 <= e / 4) by (apply Z.div_le_lower_bound; lia).
    replace (24 + Z.min (e / 4) 10) with (Z.min (e / 4) 10 - 8 + 32) by lia.
    rewrite Z.pow_add_r by lia. change (2 ^ 32) with two32.
    apply Z.mod_mul. unfold two32; lia.
Qed.

(** X2.  From epoch 32 on, and only then, the number of DAG items the
    host hands to the search kernel is 0: the 64-bit count is cut to 32
    bits.  The kernel's [dag_idx %= dag_size] then has no defined
    result. *)
Theorem search_dag_items_truncated (e : Z) (dag : mem) (start : Z) (header : list Z)
    (tgt : Z) (out : search_out) (gid : Z) :
  0 <= e ->
  (u32 (getDagSize e / HASH_BYTES) = 0 <-> 32 <= e) /\
  (32 <= e ->
   adaptivepow_search dag start header tgt (u32 (getDagSize e / HASH_BYTES)) out gid
   = None).
Proof.
  intros He. pose proof (dag_items_zero_iff e He) as Hiff.
  split; [exact Hiff|].
  intros Hge. unfold adaptivepow_search.
  rewrite (proj2 Hiff Hge). reflexivity.
Qed.

Lemma search_dag_items_truncated_witness :
  0 <= 32 /\ u32 (getDagSize 32 / HASH_BYTES) = 0.
Proof.
  assert (H : 0 <= 32) by lia.
  split; [exact H|].
  exact (proj2 (proj1 (search_dag_items_truncated 32 zero_mem 0 zero_header 0
                         (mkOut zero_mem 0) 0 H))
           ltac:(lia)).
Defined.

Lemma epoch_length_eq : ADAPTIVEPOW_EPOCH_LENGTH = 15552000.
Proof. reflexivity. Qed.

(** X3.  [adaptivepow_get_epoch] is 0 up to and including the genesis time
    (also for a timestamp before it: the unsigned subtraction is not
    reached), and after it the number of whole epochs elapsed, as long as
    that number fits 32 bits. *)
Theorem adaptivepow_get_epoch_bounds (timestamp genesisTime : Z) :
  0 <= genesisTime ->
  0 <= timestamp < two64 ->
  timestamp - genesisTime < ADAPTIVEPOW_EPOCH_LENGTH * two32 ->
  let e := adaptivepow_get_epoch timestamp genesisTime in
  (timestamp <= genesisTime -> e = 0) /\
  (genesisTime < timestamp ->
   ADAPTIVEPOW_EPOCH_LENGTH * e <= timestamp - genesisTime
     < ADAPTIVEPOW_EPOCH_LENGTH * (e + 1)).
Proof.
  intros Hg Ht Hfit e. unfold e, adaptivepow_get_epoch.
  rewrite epoch_length_eq in *.
  destruct (Z.leb_spec timestamp genesisTime) as [Hle|Hgt].
  - split; [reflexivity | lia].
  - split; [lia|]. intros _.
    rewrite u64_small by lia.
    pose proof (Z.div_mod (timestamp - genesisTime) 15552000 ltac:(lia)) as Hdm.
    pose proof (Z.mod_pos_bound (timestamp - genesisTime) 15552000 ltac:(lia)) as Hmb.
    assert (Hq : 0 <= (timestamp - genesisTime) / 15552000 < two32).
    { split; [apply Z.div_pos; lia|].
      apply Z.div_lt_upper_bound; lia. }
    rewrite u32_small by exact Hq. lia.
Qed.

Lemma adaptivepow_get_epoch_bounds_witness :
  0 <= 1000 /\ 0 <= 1000 + 15552000 < two64 /\
  1000 + 15552000 - 1000 < ADAPTIVEPOW_EPOCH_LENGTH * two32 /\
  (1000 < 1000 + 15552000 ->
   ADAPTIVEPOW_EPOCH_LENGTH * adaptivepow_get_epoch (1000 + 15552000) 1000
     <= 1000 + 15552000 - 1000
     < ADAPTIVEPOW_EPOCH_LENGTH
       * (adaptivepow_get_epoch (1000 + 15552000) 1000 + 1)).
Proof.
  assert (H1 : 0 <= 1000) by lia.
  assert (H2 : 0 <= 1000 + 15552000 < two64) by (unfold two64; lia).
  assert (H3 : 1000 + 15552000 - 1000 < ADAPTIVEPOW_EPOCH_LENGTH * two32)
    by reflexivity.
  split; [exact H1|]. split; [exact H2|]. split; [exact H3|].
  exact (proj2 (adaptivepow_get_epoch_bounds (1000 + 15552000) 1000 H1 H2 H3)).
Defined.

(* ================================================================== *)
(** ** The search kernel: what it reads and what it writes *)

(** X4.  A work-item hashes header words 0 to 18 and its nonce only: word
    19 of the header buffer is overwritten by the low half of the nonce
    before the first permutation, and nothing beyond word 19 is read. *)
Theorem search_hash_ignores_header_19 (dag : mem) (header header' : list Z)
    (n nonce0 : Z) :
  (forall i, (i < 19)%nat -> get header i = get header' i) ->
  search_hash_high dag header n nonce0 = search_hash_high dag header' n nonce0.
Proof.
  intros H. unfold search_hash_high.
  assert (Hinit : forall h,
            search_init_state h nonce0
            = map (get h) (seq 0 19)
              ++ [u32 nonce0; u32 (Z.shiftr nonce0 32); 0; 0; 0; 0]).
  { intros h. unfold search_init_state.
    generalize (u32 nonce0) (u32 (Z.shiftr nonce0 32)). intros lo hi.
    reflexivity. }
  rewrite !Hinit.
  rewrite (map_ext_in (get header) (get header')); [reflexivity|].
  intros i Hi. apply in_seq in Hi. apply H. lia.
Qed.

Lemma search_hash_ignores_header_19_witness :
  (forall i, (i < 19)%nat ->
     get (repeat 0 19 ++ [7]) i = get (repeat 0 19 ++ [9; 5]) i) /\
  search_hash_high zero_mem (repeat 0 19 ++ [7]) 1 0
  = search_hash_high zero_mem (repeat 0 19 ++ [9; 5]) 1 0.
Proof.
  assert (H : forall i, (i < 19)%nat ->
                get (repeat 0 19 ++ [7]) i = get (repeat 0 19 ++ [9; 5]) i).
  { intros i Hi. unfold get. rewrite !app_nth1 by (rewrite repeat_length; lia).
    reflexivity. }
  split; [exact H|].
  exact (search_hash_ignores_header_19 zero_mem _ _ 1 0 H).
Defined.

(** The word offsets of a DAG load stay inside a buffer of [n] items,
    with or without the 32-bit wrap. *)
Lemma dag_load_in_buffer (n x : Z) (i : nat) :
  1 <= n < two32 -> (i < 16)%nat ->
  0 <= add32 (mul32 (x mod n) 16) (Z.of_nat i) < 16 * n.
Proof.
  intros Hn Hi.
  pose proof (Z.mod_pos_bound x n ltac:(lia)) as Hx.
  destruct (Z.le_gt_cases n 268435456) as [Hsmall|Hbig].
  - rewrite item_index by lia. lia.
  - pose proof (u32_range (mul32 (x mod n) 16 + Z.of_nat i)) as Hr.
    unfold add32. unfold two32 in *. lia.
Qed.

(** X5.  For every item count from 1 to 2^32 - 1 the search kernel reads
    the DAG buffer only at words 0 to 16 * dag_size - 1: two buffers that
    agree there give the same hash. *)
Theorem search_reads_inside_dag (dag dag' : mem) (header : list Z) (n nonce0 : Z) :
  1 <= n < two32 ->
  (forall a, 0 <= a < 16 * n -> dag a = dag' a) ->
  search_hash_high dag header n nonce0 = search_hash_high dag' header n nonce0.
Proof.
  intros Hn Hagree. unfold search_hash_high. cbv zeta.
  rewrite (for_range_ext 0 DAG_LOADS (search_round dag n) (search_round dag' n));
    [reflexivity|].
  intros round [mix rng] _. unfold search_round.
  rewrite (map_ext_in
             (fun i => dag (add32 (mul32 (fnv1a
                 (Z.lxor (Z.of_nat round) (get mix (round mod MIX_WORDS)))
                 (get mix ((round + 1) mod MIX_WORDS)) mod n) 16) (Z.of_nat i)))
             (fun i => dag' (add32 (mul32 (fnv1a
                 (Z.lxor (Z.of_nat round) (get mix (round mod MIX_WORDS)))
                 (get mix ((round + 1) mod MIX_WORDS)) mod n) 16) (Z.of_nat i))));
    [reflexivity|].
  intros i Hi. apply in_seq in Hi. apply Hagree.
  apply dag_load_in_buffer; [exact Hn | lia].
Qed.

Lemma search_reads_inside_dag_witness :
  1 <= 1 < two32 /\
  (forall a, 0 <= a < 16 * 1 -> zero_mem a = (fun x => if x <? 16 then 0 else 1) a) /\
  search_hash_high zero_mem zero_header 1 0
  = search_hash_high (fun x => if x <? 16 then 0 else 1) zero_header 1 0.
Proof.
  assert (H1 : 1 <= 1 < two32) by (unfold two32; lia).
  assert (H2 : forall a, 0 <= a < 16 * 1 ->
                 zero_mem a = (fun x => if x <? 16 then 0 else 1) a).
  { intros a Ha. cbv beta. destruct (Z.ltb_spec a 16); [reflexivity | lia]. }
  split; [exact H1|]. split; [exact H2|].
  exact (search_reads_inside_dag zero_mem _ zero_header 1 0 H1 H2).
Defined.

Section ResultBuffer.

Variables (dag : mem) (start : Z) (header : list Z) (tgt dag_size : Z).
Hypothesis dag_size_nonzero : dag_size <> 0.

Local Abbreviation passes := (work_item_passes dag start header tgt dag_size).

(** From a counter at [c]: the passing work-items fill the slots from [c]
    on, in their order, up to slot 15; the slots below [c] and every word
    outside the 32 of the buffer stay. *)
Lemma launch_search_fills (order : list Z) (out : search_out) :
  0 <= result_count out ->
  result_count out + Z.of_nat (length order) < two32 ->
  exists out',
    launch_search order dag start header tgt dag_size out = Some out' /\
    result_count out'
      = result_count out + Z.of_nat (length (filter passes order)) /\
    (forall a, ~ (2 * result_count out <= a < 32) -> results out' a = results out a) /\
    (forall k g, nth_error (filter passes order) k = Some g ->
       result_count out + Z.of_nat k < 16 ->
       results out' (2 * (result_count out + Z.of_nat k))
         = u32 (work_item_nonce start g) /\
       results out' (2 * (result_count out + Z.of_nat k) + 1)
         = u32 (Z.shiftr (work_item_nonce start g) 32)).
Proof.
  revert out. induction order as [|gid order IH]; intros out H0 Hlen.
  - exists out. cbn [launch_search fold_left filter length nth_error].
    split; [reflexivity|]. split; [cbn; lia|]. split; [reflexivity|].
    intros k g Hk. destruct k; discriminate Hk.
  - rewrite (launch_search_cons dag start header tgt dag_size),
      (adaptivepow_search_step dag start header tgt dag_size dag_size_nonzero).
    cbn [length] in Hlen. rewrite Nat2Z.inj_succ in Hlen.
    cbn [filter]. destruct (passes gid) eqn:Hp.
    + assert (Hc : add32 (result_count out) 1 = result_count out + 1)
        by (apply u32_small; lia).
      rewrite Hc.
      set (out1 :=
             if result_count out <? 16 then
               mkOut (store (store (results out) (mul32 (result_count out) 2)
                               (u32 (work_item_nonce start gid)))
                        (add32 (mul32 (result_count out) 2) 1)
                        (u32 (Z.shiftr (work_item_nonce start gid) 32)))
                     (result_count out + 1)
             else mkOut (results out) (result_count out + 1)).
      assert (Hcount1 : result_count out1 = result_count out + 1)
        by (unfold out1; destruct (result_count out <? 16); reflexivity).
      assert (Hres1 : forall a,
                results out1 a =
                if result_count out <? 16 then
                  if a =? 2 * result_count out + 1
                  then u32 (Z.shiftr (work_item_nonce start gid) 32)
                  else if a =? 2 * result_count out
                       then u32 (work_item_nonce start gid)
                       else results out a
                else results out a).
      { intros a. unfold out1.
        destruct (Z.ltb_spec (result_count out) 16) as [Hlt|]; [|reflexivity].
        cbn [results]. unfold store.
        assert (Hm : mul32 (result_count out) 2 = 2 * result_count out).
        { unfold mul32. rewrite u32_small; unfold two32 in *; lia. }
        rewrite Hm. unfold add32.
        rewrite (u32_small (2 * result_count out + 1)) by (unfold two32; lia).
        reflexivity. }
      destruct (IH out1) as (out' & Hrun & Hcnt & Hframe & Hslots);
        [lia | lia |].
      exists out'. split; [exact Hrun|].
      rewrite Hcount1 in Hcnt, Hframe, Hslots.
      split; [cbn [length]; lia|]. split.
      * intros a Ha. rewrite Hframe by lia. rewrite Hres1.
        destruct (Z.ltb_spec (result_count out) 16); [|reflexivity].
        destruct (Z.eqb_spec a (2 * result_count out + 1)); [lia|].
        destruct (Z.eqb_spec a (2 * result_count out)); [lia|]. reflexivity.
      * intros [|k] g Hk Hfit.
        -- cbn [nth_error] in Hk. injection Hk as <-.
           change (Z.of_nat 0) with 0 in *. rewrite Z.add_0_r in *.
           rewrite !Hframe by lia. rewrite !Hres1.
           destruct (Z.ltb_spec (result_count out) 16); [|lia].
           rewrite Z.eqb_refl.
           destruct (Z.eqb_spec (2 * result_count out) (2 * result_count out + 1));
             [lia|].
           rewrite Z.eqb_refl. split; reflexivity.
        -- cbn [nth_error] in Hk. rewrite Nat2Z.inj_succ in Hfit |- *.
           destruct (Hslots k g Hk) as [Hlo Hhi]; [lia|].
           replace (result_count out + Z.succ (Z.of_nat k))
             with (result_count out + 1 + Z.of_nat k) by lia.
           split; assumption.
    + destruct (IH out H0) as (out' & Hrun & Hcnt & Hframe & Hslots); [lia|].
      exists out'. split; [exact Hrun|]. split; [exact Hcnt|].
      split; assumption.
Qed.

End ResultBuffer.

(** X6.  After the host's reset of the counter, a launch leaves in
    [result_count] the number of work-items whose hash passed, in slots
    [2k, 2k + 1] the nonce of the [k]-th of them in the order they reached
    the counter, for [k < 16], and it writes no word outside the 32 of the
    results buffer. *)
Theorem launch_search_first_16 (dag : mem) (start : Z) (header : list Z)
    (tgt dag_size : Z) (order : list Z) (r0 : mem) :
  dag_size <> 0 ->
  Z.of_nat (length order) < two32 ->
  exists out',
    launch_search order dag start header tgt dag_size (mkOut r0 0) = Some out' /\
    result_count out'
      = Z.of_nat (length (filter (work_item_passes dag start header tgt dag_size) order)) /\
    (forall a, ~ (0 <= a < 32) -> results out' a = r0 a) /\
    (forall k g,
       nth_error (filter (work_item_passes dag start header tgt dag_size) order) k
         = Some g ->
       (k < 16)%nat ->
       Z.lor (u64 (Z.shiftl (results out' (2 * Z.of_nat k + 1)) 32))
             (results out' (2 * Z.of_nat k))
       = work_item_nonce start g).
Proof.
  intros Hn Hlen.
  destruct (launch_search_fills dag start header tgt dag_size Hn order (mkOut r0 0))
    as (out' & Hrun & Hcnt & Hframe & Hslots); cbn [result_count results] in *;
    [lia | lia |].
  exists out'. split; [exact Hrun|]. split; [exact Hcnt|]. split.
  - intros a Ha. apply Hframe. lia.
  - intros k g Hk Hlt.
    destruct (Hslots k g Hk) as [Hlo Hhi]; [lia|].
    rewrite Z.add_0_l in Hlo, Hhi. rewrite Hlo, Hhi.
    apply split_halves, u64_range.
Qed.

Lemma launch_search_first_16_witness :
  16777216 <> 0 /\
  Z.of_nat (length [5; 3; 4]) < two32 /\
  exists out',
    launch_search [5; 3; 4] zero_mem 0 zero_header (two64 - 1) 16777216
      (mkOut zero_mem 0) = Some out'.
Proof.
  assert (H1 : 16777216 <> 0) by discriminate.
  assert (H2 : Z.of_nat (length [5; 3; 4]) < two32) by reflexivity.
  split; [exact H1|]. split; [exact H2|].
  destruct (launch_search_first_16 zero_mem 0 zero_header (two64 - 1) 16777216
              [5; 3; 4] zero_mem H1 H2) as (out' & Hrun & _).
  exists out'. exact Hrun.
Defined.

(* ================================================================== *)
(** ** Dataset generation on the host *)

Lemma launch_dag_cons (g : Z) (order : list Z) (cache : mem) (cs di : Z) (dag : mem) :
  launch_dag (g :: order) cache cs di (Some dag)
  = launch_dag order cache cs di (generate_dag cache cs dag di g).
Proof. reflexivity. Qed.

Lemma generate_dag_skip (cache : mem) (cs : Z) (dag : mem) (di gid : Z) :
  di <= u32 gid -> generate_dag cache cs dag di gid = Some dag.
Proof.
  intros H. unfold generate_dag.
  destruct (Z.leb_spec di (u32 gid)); [reflexivity | lia].
Qed.

Lemma item_of_ext (m m' : mem) (i : Z) :
  (forall a, 16 * i <= a < 16 * i + 16 -> m a = m' a) ->
  item_of m i = item_of m' i.
Proof.
  intros H. unfold item_of. apply map_ext_in. intros k Hk.
  apply in_seq in Hk. apply H. lia.
Qed.

(** Work-items of [generate_dag] in any order, with repetitions or
    without: each index of the list below [dag_items] gets its item, the
    rest of the buffer stays. *)
Lemma launch_dag_items (cache : mem) (cs di : Z) (order : list Z) (dag : mem) :
  1 <= cs < 268435456 ->
  di <= 268435456 ->
  (forall g, In g order -> 0 <= g < two32) ->
  exists d',
    launch_dag order cache cs di (Some dag) = Some d' /\
    (forall i, In i order -> i < di -> item_of d' i = spec_dag_item cache cs i) /\
    (forall a, (forall j, In j order -> j < di -> ~ (16 * j <= a < 16 * j + 16)) ->
               d' a = dag a).
Proof.
  intros Hcs Hdi. revert dag. induction order as [|g order IH]; intros dag Hids.
  - exists dag. split; [reflexivity|]. split; [intros i []|reflexivity].
  - assert (Hg : 0 <= g < two32) by (apply Hids; now left).
    assert (Hrest : forall j, In j order -> 0 <= j < two32)
      by (intros j Hj; apply Hids; now right).
    rewrite launch_dag_cons.
    destruct (Z.lt_ge_cases g di) as [Hlt|Hge].
    + destruct (generate_dag_item cache cs dag di g Hcs ltac:(lia) ltac:(lia))
        as (dag1 & Hstep & Hitem & Hframe1).
      rewrite Hstep.
      destruct (IH dag1 Hrest) as (d' & Hrun & Hitems & Hframe2).
      exists d'. split; [exact Hrun|]. split.
      * intros i Hi Hidi.
        destruct (in_dec Z.eq_dec i order) as [Hin|Hnot]; [now apply Hitems|].
        destruct Hi as [<-|Hi]; [|contradiction].
        rewrite <- Hitem. apply item_of_ext. intros a Ha.
        apply Hframe2. intros j Hj Hjdi Hja.
        assert (0 <= j) by (apply Hrest; exact Hj).
        assert (j <> g) by (intros ->; contradiction). lia.
      * intros a Ha. rewrite Hframe2.
        -- apply Hframe1. apply Ha; [now left | exact Hlt].
        -- intros j Hj. apply Ha. now right.
    + rewrite generate_dag_skip by (rewrite u32_small; lia).
      destruct (IH dag Hrest) as (d' & Hrun & Hitems & Hframe2).
      exists d'. split; [exact Hrun|]. split.
      * intros i [<-|Hi] Hidi; [lia | now apply Hitems].
      * intros a Ha. apply Hframe2. intros j Hj. apply Ha. now right.
Qed.

(** X7.  The DAG kernel is insensitive to the order of its work-items:
    with at most 2^28 items and a cache of fewer than 2^28, two launches
    over the same indices in different orders, and from different buffer
    contents, leave the same DAG items. *)
Theorem launch_dag_order_independent (cache : mem) (cs di : Z)
    (order order' : list Z) (dag dag' : mem) :
  1 <= cs < 268435456 ->
  di <= 268435456 ->
  (forall g, In g order -> 0 <= g < two32) ->
  (forall g, In g order <-> In g order') ->
  exists d d',
    launch_dag order cache cs di (Some dag) = Some d /\
    launch_dag order' cache cs di (Some dag') = Some d' /\
    forall i, In i order -> i < di -> item_of d i = item_of d' i.
Proof.
  intros Hcs Hdi Hids Hsame.
  destruct (launch_dag_items cache cs di order dag Hcs Hdi Hids)
    as (d & Hrun & Hitems & _).
  destruct (launch_dag_items cache cs di order' dag' Hcs Hdi)
    as (d' & Hrun' & Hitems' & _).
  { intros g Hg. apply Hids, Hsame, Hg. }
  exists d, d'. split; [exact Hrun|]. split; [exact Hrun'|].
  intros i Hi Hidi. rewrite Hitems, Hitems'; auto. now apply Hsame.
Qed.

Lemma launch_dag_order_independent_witness :
  1 <= 4 < 268435456 /\ 3 <= 268435456 /\
  (forall g, In g [0; 1; 2] -> 0 <= g < two32) /\
  (forall g, In g [0; 1; 2] <-> In g [2; 0; 1; 0]) /\
  exists d d',
    launch_dag [0; 1; 2] index_mem 4 3 (Some zero_mem) = Some d /\
    launch_dag [2; 0; 1; 0] index_mem 4 3 (Some index_mem) = Some d' /\
    forall i, In i [0; 1; 2] -> i < 3 -> item_of d i = item_of d' i.
Proof.
  assert (H1 : 1 <= 4 < 268435456) by lia.
  assert (H2 : 3 <= 268435456) by lia.
  assert (H3 : forall g, In g [0; 1; 2] -> 0 <= g < two32).
  { intros g Hg. cbn in Hg. unfold two32. lia. }
  assert (H4 : forall g, In g [0; 1; 2] <-> In g [2; 0; 1; 0]).
  { intros g. cbn. split; intros H; repeat destruct H as [H|H]; auto 6. }
  split; [exact H1|]. split; [exact H2|]. split; [exact H3|]. split; [exact H4|].
  exact (launch_dag_order_independent index_mem 4 3 [0; 1; 2] [2; 0; 1; 0]
           zero_mem index_mem H1 H2 H3 H4).
Defined.

Lemma adaptivepow_opencl_generate_dag_batches (order : list Z) (cache0 : mem)
    (ctx : OpenCLContext) :
  adaptivepow_opencl_generate_dag order cache0 ctx =
  match (if dagKernel ctx
         then dag_batches (opencl_build_cache order cache0 ctx)
                (opencl_cache_items ctx) (ocl_dagSize ctx / HASH_BYTES)
                (Some (dagBuffer ctx))
         else Some (dagBuffer ctx)) with
  | Some d =>
      Some (mkOcl (ocl_epoch ctx) (ocl_dagSize ctx) true d (headerBuffer ctx)
              (resultsBuffer ctx) (resultCountBuffer ctx)
              (dagKernel ctx) (cacheKernel ctx))
  | None => None
  end.
Proof. reflexivity. Qed.

(** With a 32-bit item count of 0 no work-item stores. *)
Lemma dag_batches_zero_count (cache : mem) (cs n : Z) (dag0 : mem) :
  u32 n = 0 ->
  dag_batches cache cs n (Some dag0) = Some dag0.
Proof.
  intros Hz. unfold dag_batches. cbv zeta. rewrite Hz.
  apply (for_range_inv (fun acc => acc = Some dag0)); [reflexivity|].
  intros b acc _ ->. cbv beta zeta. unfold launch_in_order.
  apply (fold_left_inv (fun acc => acc = Some dag0)); [reflexivity|].
  intros k acc _ ->. unfold generate_dag_read_only.
  pose proof (u32_range
                (Z.of_nat b * (1024 * 1024) + Z.of_nat k)) as Hr.
  destruct (Z.leb_spec 0 (u32 (Z.of_nat b * (1024 * 1024) + Z.of_nat k)));
    [|lia].
  apply generate_dag_skip. lia.
Qed.

(** With any other count the first work-item of the first sub-launch
    stores into the read-only buffer. *)
Lemma dag_batches_store (cache : mem) (cs n : Z) (dag0 : mem) :
  1 <= n -> u32 n <> 0 ->
  dag_batches cache cs n (Some dag0) = None.
Proof.
  intros Hn Hnz. unfold dag_batches. cbv zeta.
  change (1024 * 1024) with 1048576.
  assert (Hb : 1 <= (n + 1048576 - 1) / 1048576)
    by (apply Z.div_le_lower_bound; lia).
  destruct (Z.to_nat ((n + 1048576 - 1) / 1048576)) as [|k] eqn:Hk; [lia|].
  unfold for_range. cbn [seq fold_left].
  match goal with
  | |- fold_left ?f _ ?first = None =>
      assert (Hfirst : first = None);
      [|rewrite Hfirst;
        apply (fold_left_inv (fun acc => acc = None)); [reflexivity|];
        intros b acc _ ->; cbv beta zeta; unfold launch_in_order;
        apply (fold_left_inv (fun acc => acc = None)); [reflexivity|];
        intros j acc _ ->; reflexivity]
  end.
  change (Z.of_nat 0 * 1048576) with 0. rewrite Z.sub_0_r.
  set (thisSize := if n <? 1048576 then n else 1048576).
  assert (Hts : 1 <= thisSize) by (unfold thisSize; destruct (n <? 1048576); lia).
  pose proof (round_up_256_bounds thisSize ltac:(lia)) as Hru.
  destruct (Z.to_nat (round_up_256 thisSize)) as [|j] eqn:Hj; [lia|].
  unfold launch_in_order. cbn [seq fold_left].
  assert (Hstore : generate_dag_read_only cache cs dag0 (u32 n) (0 + Z.of_nat 0)
                   = None).
  { unfold generate_dag_read_only. change (u32 (0 + Z.of_nat 0)) with 0.
    pose proof (u32_range n).
    destruct (Z.leb_spec (u32 n) 0); [lia | reflexivity]. }
  rewrite Hstore.
  apply (fold_left_inv (fun acc => acc = None)); [reflexivity|].
  intros i acc _ ->. reflexivity.
Qed.

(** Without a DAG kernel, or with an item count that is 0 in 32 bits, the
    routine stores nothing into the DAG buffer and marks it ready. *)
Lemma opencl_generate_dag_no_store (order : list Z) (cache0 : mem)
    (ctx : OpenCLContext) :
  dagKernel ctx = false \/ u32 (ocl_dagSize ctx / HASH_BYTES) = 0 ->
  adaptivepow_opencl_generate_dag order cache0 ctx
  = Some (mkOcl (ocl_epoch ctx) (ocl_dagSize ctx) true (dagBuffer ctx)
            (headerBuffer ctx) (resultsBuffer ctx) (resultCountBuffer ctx)
            (dagKernel ctx) (cacheKernel ctx)).
Proof.
  intros H. rewrite adaptivepow_opencl_generate_dag_batches.
  destruct (dagKernel ctx); [|reflexivity].
  destruct H as [H|H]; [discriminate H|].
  now rewrite dag_batches_zero_count.
Qed.

Lemma epoch_dag_items (e : Z) :
  0 <= e -> getDagSize e / HASH_BYTES = 2 ^ (24 + Z.min (e / 4) 10).
Proof.
  intros He. assert (Hq : 0 <= e / 4) by (apply Z.div_pos; lia).
  rewrite getDagSize_pow by lia. unfold HASH_BYTES.
  replace (30 + Z.min (e / 4) 10) with (24 + Z.min (e / 4) 10 + 6) by lia.
  rewrite Z.pow_add_r by lia. change (2 ^ 6) with 64.
  apply Z.div_mul. lia.
Qed.

(** X8.  Below epoch 32 [adaptivepow_opencl_generate_dag] has a defined
    result only without a DAG kernel.  With a NULL [dagKernel] it returns
    0 and sets [dagReady] though no DAG item was written; with a DAG
    kernel the first work-item of the first sub-launch stores into the
    DAG buffer, which [adaptivepow_opencl_init] created read-only, and
    what follows is not defined.  Neither depends on the order of the
    cache work-items. *)
Theorem opencl_generate_dag_below_32 (e : Z) (order : list Z) (cache0 : mem)
    (ctx : OpenCLContext) :
  0 <= e < 32 ->
  ocl_dagSize ctx = getDagSize e ->
  (dagKernel ctx = false ->
   adaptivepow_opencl_generate_dag order cache0 ctx
   = Some (mkOcl (ocl_epoch ctx) (ocl_dagSize ctx) true (dagBuffer ctx)
             (headerBuffer ctx) (resultsBuffer ctx) (resultCountBuffer ctx)
             false (cacheKernel ctx))) /\
  (dagKernel ctx = true ->
   adaptivepow_opencl_generate_dag order cache0 ctx = None).
Proof.
  intros He Hsize. split; intros Hk.
  - rewrite opencl_generate_dag_no_store by now left. now rewrite Hk.
  - rewrite adaptivepow_opencl_generate_dag_batches, Hk, Hsize.
    rewrite dag_batches_store; [reflexivity | |].
    + rewrite epoch_dag_items by lia.
      apply (Z.pow_le_mono_r 2 0); [lia|].
      assert (0 <= e / 4) by (apply Z.div_pos; lia). lia.
    + intros Hz. apply (dag_items_zero_iff e) in Hz; lia.
Qed.

Lemma opencl_generate_dag_below_32_witness :
  0 <= 0 < 32 /\
  ocl_dagSize (ocl_init 0) = getDagSize 0 /\
  adaptivepow_opencl_generate_dag [] zero_mem (ocl_init 0) = None.
Proof.
  assert (H1 : 0 <= 0 < 32) by lia.
  assert (H2 : ocl_dagSize (ocl_init 0) = getDagSize 0) by reflexivity.
  split; [exact H1|]. split; [exact H2|].
  exact (proj2 (opencl_generate_dag_below_32 0 [] zero_mem (ocl_init 0) H1 H2)
           eq_refl).
Defined.

(** X9.  From epoch 32 on [adaptivepow_opencl_generate_dag] still marks
    the context ready, but the DAG kernel received an item count of 0 and
    every work-item returned at its guard: the DAG buffer holds what it
    held before. *)
Theorem opencl_generate_dag_writes_nothing (e : Z) (order : list Z) (cache0 : mem)
    (ctx : OpenCLContext) :
  32 <= e ->
  ocl_dagSize ctx = getDagSize e ->
  adaptivepow_opencl_generate_dag order cache0 ctx
  = Some (mkOcl (ocl_epoch ctx) (ocl_dagSize ctx) true (dagBuffer ctx)
            (headerBuffer ctx) (resultsBuffer ctx) (resultCountBuffer ctx)
            (dagKernel ctx) (cacheKernel ctx)).
Proof.
  intros He Hsize. apply opencl_generate_dag_no_store. right.
  rewrite Hsize.
  apply (dag_items_zero_iff e); lia.
Qed.

Lemma opencl_generate_dag_writes_nothing_witness :
  32 <= 32 /\
  ocl_dagSize (mkOcl 32 (getDagSize 32) false index_mem [] zero_mem 0 true true)
    = getDagSize 32 /\
  adaptivepow_opencl_generate_dag [0; 1] zero_mem
    (mkOcl 32 (getDagSize 32) false index_mem [] zero_mem 0 true true)
  = Some (mkOcl 32 (getDagSize 32) true index_mem [] zero_mem 0 true true).
Proof.
  assert (H1 : 32 <= 32) by lia.
  assert (H2 : ocl_dagSize
                 (mkOcl 32 (getDagSize 32) false index_mem [] zero_mem 0 true true)
               = getDagSize 32) by reflexivity.
  split; [exact H1|]. split; [exact H2|].
  exact (opencl_generate_dag_writes_nothing 32 [0; 1] zero_mem
           (mkOcl 32 (getDagSize 32) false index_mem [] zero_mem 0 true true)
           H1 H2).
Defined.

(** X10.  The cache does not depend on what the cache buffer held before
    the launch: built in index order from the same seed, every item is the
    same from any initial content. *)
Theorem generate_cache_ignores_buffer (seed : list Z) (cache0 cache0' : mem)
    (n i : Z) :
  length seed = 8%nat ->
  n <= 268435456 ->
  0 <= i < n ->
  item_of (launch_in_order 0 (Z.to_nat (round_up_256 n))
             (fun c gid => generate_cache seed c n gid) cache0) i
  = item_of (launch_in_order 0 (Z.to_nat (round_up_256 n))
               (fun c gid => generate_cache seed c n gid) cache0') i.
Proof.
  intros Hseed Hn Hi.
  pose proof (round_up_256_bounds n ltac:(lia)) as Hg.
  assert (Hk : forall k : nat, Z.of_nat k < n ->
            item_of (launch_in_order 0 (Z.to_nat (round_up_256 n))
                       (fun c gid => generate_cache seed c n gid) cache0)
                    (Z.of_nat k)
            = item_of (launch_in_order 0 (Z.to_nat (round_up_256 n))
                         (fun c gid => generate_cache seed c n gid) cache0')
                      (Z.of_nat k)).
  { induction k as [|k IH]; intros Hlt.
    - rewrite !generate_cache_launch by (try assumption; unfold two32; lia).
      reflexivity.
    - rewrite !generate_cache_launch by (try assumption; unfold two32; lia).
      f_equal. unfold spec_cache_block.
      destruct (Z.eqb_spec (Z.of_nat (S k)) 0) as [|_]; [lia|].
      replace (Z.of_nat (S k) - 1) with (Z.of_nat k) by lia.
      apply IH. lia. }
  specialize (Hk (Z.to_nat i)). rewrite Z2Nat.id in Hk by lia. apply Hk. lia.
Qed.

Lemma generate_cache_ignores_buffer_witness :
  length [1; 2; 3; 4; 5; 6; 7; 8] = 8%nat /\
  3 <= 268435456 /\
  0 <= 2 < 3 /\
  item_of (launch_in_order 0 (Z.to_nat (round_up_256 3))
             (fun c gid => generate_cache [1; 2; 3; 4; 5; 6; 7; 8] c 3 gid) zero_mem) 2
  = item_of (launch_in_order 0 (Z.to_nat (round_up_256 3))
               (fun c gid => generate_cache [1; 2; 3; 4; 5; 6; 7; 8] c 3 gid)
               index_mem) 2.
Proof.
  assert (H1 : length [1; 2; 3; 4; 5; 6; 7; 8] = 8%nat) by reflexivity.
  assert (H2 : 3 <= 268435456) by lia.
  assert (H3 : 0 <= 2 < 3) by lia.
  split; [exact H1|]. split; [exact H2|]. split; [exact H3|].
  exact (generate_cache_ignores_buffer [1; 2; 3; 4; 5; 6; 7; 8] zero_mem index_mem
           3 2 H1 H2 H3).
Defined.

(* ================================================================== *)
(** ** Search calls and the miner's result slot *)

(** X11.  With the kernel's work-items serialised in any order, a search
    call returns 1 or 0.  If it returns 1, [foundNonce] is the nonce of a
    work-item of the launch and the kernel's [hash_high] for it is at most
    the target; if it returns 0, the hash of every work-item exceeds the
    target and [foundNonce] is left alone. *)
Theorem opencl_search_sound_and_complete (order : list Z) (c : OpenCLContext)
    (header : list Z) (tgt start fn0 hc0 : Z) :
  ocl_dagReady c = true ->
  u32 (ocl_dagSize c / HASH_BYTES) <> 0 ->
  Z.of_nat (length order) < two32 ->
  let n := u32 (ocl_dagSize c / HASH_BYTES) in
  let r := adaptivepow_opencl_search (search_executor order) (Some c) header tgt
             start fn0 hc0 in
  (ret r = 1 /\
   exists g, In g order /\ foundNonce r = work_item_nonce start g /\
             search_hash_high (dagBuffer c) header n (foundNonce r) <= tgt) \/
  (ret r = 0 /\ foundNonce r = fn0 /\
   forall g, In g order ->
             tgt < search_hash_high (dagBuffer c) header n (work_item_nonce start g)).
Proof.
  intros Hr Hn Hlen. cbv zeta.
  destruct (adaptivepow_opencl_search_readback (search_executor order) c header tgt
              start fn0 hc0 Hr) as (_ & Hfound & Hnone).
  generalize dependent (u32 (ocl_dagSize c / HASH_BYTES)). intros n Hn Hfound Hnone.
  destruct (launch_search_fills (dagBuffer c) start header tgt n Hn order
              (mkOut (resultsBuffer c) 0))
    as (out' & Hrun & Hcnt & _ & Hslots); cbn [result_count]; [lia | lia |].
  cbn [result_count] in Hcnt, Hslots.
  assert (Hdev : search_executor order (dagBuffer c) start header tgt n
                   (mkOut (resultsBuffer c) 0) = out')
    by (unfold search_executor; now rewrite Hrun).
  generalize dependent (adaptivepow_opencl_search (search_executor order) (Some c)
                          header tgt start fn0 hc0).
  intros r Hfound Hnone.
  rewrite Hdev in Hfound, Hnone. clear Hdev Hrun.
  assert (Hpass : forall g, work_item_passes (dagBuffer c) start header tgt n g = true
                    <-> search_hash_high (dagBuffer c) header n
                          (work_item_nonce start g) <= tgt).
  { intros g. unfold work_item_passes. apply Z.leb_le. }
  generalize dependent (work_item_passes (dagBuffer c) start header tgt n).
  intros passes Hcnt Hslots Hpass.
  destruct (filter passes order) as [|g rest] eqn:Hf.
  - right. destruct Hnone as [Hret Hfn]; [cbn [length] in Hcnt; lia|].
    split; [exact Hret|]. split; [exact Hfn|].
    intros g Hg.
    destruct (Z.leb_spec (search_hash_high (dagBuffer c) header n
                            (work_item_nonce start g)) tgt) as [Hle|Hgt];
      [|exact Hgt].
    assert (Hin : In g (filter passes order))
      by (apply filter_In; split; [exact Hg | now apply Hpass]).
    rewrite Hf in Hin. contradiction.
  - left. destruct Hfound as [Hret Hfn];
      [cbn [length] in Hcnt; rewrite Nat2Z.inj_succ in Hcnt; lia|].
    split; [exact Hret|].
    assert (Hin : In g (filter passes order)) by (rewrite Hf; now left).
    apply filter_In in Hin. destruct Hin as [Hg Hp].
    destruct (Hslots 0%nat g eq_refl) as [Hlo Hhi]; [reflexivity|].
    change (2 * (0 + Z.of_nat 0)) with 0 in Hlo.
    change (2 * (0 + Z.of_nat 0) + 1) with 1 in Hhi.
    assert (Hnonce : foundNonce r = work_item_nonce start g).
    { rewrite Hfn, Hlo, Hhi. apply split_halves, u64_range. }
    exists g. split; [exact Hg|]. split; [exact Hnonce|].
    rewrite Hnonce. now apply Hpass.
Qed.

Lemma opencl_search_sound_and_complete_witness :
  ocl_dagReady ocl_ready = true /\
  u32 (ocl_dagSize ocl_ready / HASH_BYTES) <> 0 /\
  Z.of_nat (length [1; 0]) < two32 /\
  (ret (adaptivepow_opencl_search (search_executor [1; 0]) (Some ocl_ready)
          zero_header 0 0 0 0) = 1 \/
   ret (adaptivepow_opencl_search (search_executor [1; 0]) (Some ocl_ready)
          zero_header 0 0 0 0) = 0).
Proof.
  assert (H1 : ocl_dagReady ocl_ready = true) by reflexivity.
  assert (H2 : u32 (ocl_dagSize ocl_ready / HASH_BYTES) <> 0) by discriminate.
  assert (H3 : Z.of_nat (length [1; 0]) < two32) by reflexivity.
  split; [exact H1|]. split; [exact H2|]. split; [exact H3|].
  destruct (opencl_search_sound_and_complete [1; 0] ocl_ready zero_header 0 0 0 0
              H1 H2 H3) as [[Hret _]|[Hret _]]; [left | right]; exact Hret.
Defined.

(* ================================================================== *)
(** ** The miner core around the search *)

(** X12.  [miner_submit_job] returns -1, 0 or 1.  It returns -1 exactly
    when the job is missing, the miner's DAG is not ready, the context is
    a CUDA one, or the OpenCL context is missing or not ready; and a call
    that returns -1 launches nothing and leaves the whole context, cursor
    and counters included, as it was. *)
Theorem miner_submit_job_refusal (exec : executor) (c : MinerContext)
    (job : option MiningJob) :
  0 <= currentNonce c < two64 ->
  0 <= totalHashes c < two64 ->
  let s := miner_submit_job exec (Some c) job in
  (sub_result s = -1 \/ sub_result s = 0 \/ sub_result s = 1) /\
  (sub_result s = -1 -> sub_ctx s = Some c /\ sub_launched s = []) /\
  (sub_result s = -1 <->
   job = None \/ dagReady c = false \/ isCuda c = true \/ gpuContext c = None \/
   exists o, gpuContext c = Some o /\ ocl_dagReady o = false).
Proof.
  intros Hn Ht. cbv zeta.
  destruct c as [dev ep ds cuda rdy gpu tot acc rej cur has pend].
  cbn [currentNonce totalHashes dagReady isCuda gpuContext] in *.
  destruct job as [j|]; cbn [miner_submit_job sub_result sub_ctx sub_launched];
    [|split; [now left|]; split; [now split|]; split; [now left | reflexivity]].
  unfold miner_submit_job.
  cbn [currentNonce totalHashes dagReady isCuda gpuContext hasResult pendingResult
       deviceId epoch dagSize acceptedShares rejectedShares].
  destruct rdy; cbn [negb];
    [|cbn [sub_result sub_ctx sub_launched];
      split; [now left|]; split; [now split|]; split;
      [intros _; right; now left | reflexivity]].
  destruct cuda; cbn [negb].
  { cbn [ret hashCount launched ocl_after foundNonce sub_result sub_ctx
         sub_launched fst snd Z.gtb Z.compare].
    rewrite !Z.add_0_r, !u64_small by assumption.
    split; [now left|]. split; [now split|]. split; [|reflexivity].
    intros _. right. right. now left. }
  unfold adaptivepow_opencl_search.
  destruct gpu as [o|].
  2:{ cbn [ret hashCount launched ocl_after foundNonce sub_result sub_ctx
           sub_launched fst snd Z.gtb Z.compare].
      rewrite !Z.add_0_r, !u64_small by assumption.
      split; [now left|]. split; [now split|]. split; [|reflexivity].
      intros _. right. right. right. now left. }
  destruct (ocl_dagReady o) eqn:Ho; cbn [negb].
  2:{ cbn [ret hashCount launched ocl_after foundNonce sub_result sub_ctx
           sub_launched fst snd Z.gtb Z.compare].
      rewrite !Z.add_0_r, !u64_small by assumption.
      split; [now left|]. split; [now split|]. split; [|reflexivity].
      intros _. right. right. right. right. exists o. now split. }
  cbv zeta.
  destruct (result_count _ >? 0);
    cbn [ret hashCount launched ocl_after foundNonce sub_result sub_ctx
         sub_launched fst snd].
  - split; [now right; right|]. split; [discriminate|]. split; [discriminate|].
    intros [H|[H|[H|[H|(o' & H & Ho')]]]]; try discriminate H.
    injection H as <-. rewrite Ho in Ho'. discriminate Ho'.
  - split; [now right; left|]. split; [discriminate|]. split; [discriminate|].
    intros [H|[H|[H|[H|(o' & H & Ho')]]]]; try discriminate H.
    injection H as <-. rewrite Ho in Ho'. discriminate Ho'.
Qed.

Lemma miner_submit_job_refusal_witness :
  0 <= currentNonce (miner_at 5) < two64 /\
  0 <= totalHashes (miner_at 5) < two64 /\
  sub_ctx (miner_submit_job exec_none (Some (miner_at 5)) None)
    = Some (miner_at 5).
Proof.
  assert (H1 : 0 <= currentNonce (miner_at 5) < two64) by (cbn; unfold two64; lia).
  assert (H2 : 0 <= totalHashes (miner_at 5) < two64) by (cbn; unfold two64; lia).
  split; [exact H1|]. split; [exact H2|].
  destruct (miner_submit_job_refusal exec_none (miner_at 5) None H1 H2)
    as (_ & Hsame & _).
  apply Hsame. reflexivity.
Defined.

(** X13.  What [miner_submit_job] returns on a ready context is what the
    search returned.  After a call that returned 1, [miner_get_result]
    returns 1 once, handing out the nonce the search reported with
    [found] set, whatever result was pending before; asked again at once
    it returns 0 and only clears [found].  After a call that returned 0
    the slot is as it was before the call. *)
Theorem miner_result_round_trip (exec : executor) (c : MinerContext)
    (j : MiningJob) (r0 : MiningResult) :
  ready c ->
  let s := miner_submit_job exec (Some c) (Some j) in
  let r := adaptivepow_opencl_search exec (gpuContext c) (job_header j) (target j)
             (currentNonce c) 0 0 in
  let g1 := miner_get_result (sub_ctx s) (Some r0) in
  let g2 := miner_get_result (get_ctx g1) (get_out g1) in
  sub_result s = ret r /\
  (sub_result s = 1 ->
   get_result g1 = 1 /\
   (exists res, get_out g1 = Some res /\ found res = true /\
                nonce res = foundNonce r) /\
   get_result g2 = 0 /\
   (exists res, get_out g2 = Some res /\ found res = false /\
                nonce res = foundNonce r)) /\
  (sub_result s = 0 ->
   (hasResult c = false ->
    get_result g1 = 0 /\
    get_out g1 = Some (mkResult (res_jobId r0) (nonce r0) false)) /\
   (hasResult c = true ->
    get_result g1 = 1 /\ get_out g1 = Some (pendingResult c))).
Proof.
  intros (Hd & Hc & o & Hg & Ho). cbv zeta.
  unfold miner_submit_job. rewrite Hd, Hc. cbn [negb].
  rewrite Hg. unfold adaptivepow_opencl_search. rewrite Ho. cbn [negb]. cbv zeta.
  destruct (result_count _ >? 0);
    cbn [ret hashCount launched ocl_after foundNonce sub_result sub_ctx
         sub_launched fst snd Z.gtb Z.compare miner_get_result hasResult
         pendingResult get_result get_out get_ctx found nonce res_jobId].
  - split; [reflexivity|]. split; [|discriminate].
    intros _. split; [reflexivity|].
    split; [eexists; split; [reflexivity | split; reflexivity]|].
    split; [reflexivity|].
    eexists; split; [reflexivity | split; reflexivity].
  - split; [reflexivity|]. split; [discriminate|].
    intros _. split; intros ->;
      cbn [get_result get_out]; split; reflexivity.
Qed.

Lemma miner_result_round_trip_witness :
  ready (miner_at 0) /\
  sub_result (miner_submit_job exec_none (Some (miner_at 0)) (Some (job_zero 0)))
  = ret (adaptivepow_opencl_search exec_none (gpuContext (miner_at 0))
           (job_header (job_zero 0)) (target (job_zero 0))
           (currentNonce (miner_at 0)) 0 0).
Proof.
  assert (H1 : ready (miner_at 0)).
  { split; [reflexivity|]. split; [reflexivity|].
    exists ocl_ready. split; reflexivity. }
  split; [exact H1|].
  exact (proj1 (miner_result_round_trip exec_none (miner_at 0) (job_zero 0)
                  (mkResult [] 0 false) H1)).
Defined.



(** X15.  [miner_generate_dag] does not run on a context whose DAG is
    ready or that is a CUDA one, and a failed cache allocation is passed
    on as -2: in each case the context is left as it was, and in the last
    two the DAG stays not ready. *)
Theorem miner_generate_dag_failures (alloc_ok : bool) (order : list Z)
    (cache0 : mem) (c : MinerContext) (o : OpenCLContext) :
  gpuContext c = Some o ->
  (dagReady c = true ->
   miner_generate_dag alloc_ok order cache0 (Some c) = Some (-1, Some c)) /\
  (isCuda c = true ->
   miner_generate_dag alloc_ok order cache0 (Some c) = Some (-1, Some c)) /\
  (dagReady c = false -> isCuda c = false ->
   miner_generate_dag false order cache0 (Some c) = Some (-2, Some c) /\
   miner_dag_ready (Some c) = false).
Proof.
  intros Hg.
  destruct c as [dev ep ds cuda rdy gpu tot acc rej cur has pend].
  cbn [dagReady isCuda gpuContext] in *. subst gpu.
  unfold miner_generate_dag, miner_dag_ready.
  cbn [dagReady isCuda gpuContext deviceId epoch dagSize totalHashes
       acceptedShares rejectedShares currentNonce hasResult pendingResult].
  split; [intros ->; reflexivity|].
  split; [intros ->; now destruct rdy|].
  intros -> ->. split; reflexivity.
Qed.

Lemma miner_generate_dag_failures_witness :
  gpuContext (miner_at 0) = Some ocl_ready /\
  miner_generate_dag true [] zero_mem (Some (miner_at 0))
  = Some (-1, Some (miner_at 0)).
Proof.
  assert (H1 : gpuContext (miner_at 0) = Some ocl_ready) by reflexivity.
  split; [exact H1|].
  exact (proj1 (miner_generate_dag_failures true [] zero_mem (miner_at 0)
                  ocl_ready H1)
           eq_refl).
Defined.

(* ================================================================== *)
(** ** Compact targets as 256-bit numbers *)

Lemma le_value_zeros (n : nat) : le_value (repeat 0 n) = 0.
Proof. induction n as [|n IH]; cbn [repeat le_value]; lia. Qed.

(** Writing byte [i] moves the number by the change of that byte, scaled. *)
Lemma le_value_put (a : list Z) (i : nat) (v : Z) :
  (i < length a)%nat ->
  le_value (put a i v) = le_value a + (v - get a i) * 256 ^ Z.of_nat i.
Proof.
  revert i. induction a as [|h t IH]; intros i Hi; [cbn in Hi; lia|].
  destruct i as [|i].
  - cbn [put le_value]. unfold get. cbn [nth]. change (256 ^ Z.of_nat 0) with 1. lia.
  - cbn [put le_value]. cbn [length] in Hi.
    rewrite IH by lia. unfold get. cbn [nth]. fold (get t i).
    rewrite Nat2Z.inj_succ, Z.pow_succ_r by lia. lia.
Qed.

Lemma get_put_other (a : list Z) (i j : nat) (v : Z) :
  i <> j -> get (put a i v) j = get a j.
Proof.
  unfold get. revert i j. induction a as [|h t IH]; intros i j Hij.
  - now destruct i.
  - destruct i as [|i], j as [|j]; cbn [put nth]; try reflexivity; try lia.
    apply IH. lia.
Qed.

Lemma get_zeros (n i : nat) : get (repeat 0 n) i = 0.
Proof.
  unfold get. revert i. induction n as [|n IH]; intros [|i]; cbn [repeat nth];
    try reflexivity. apply IH.
Qed.

(** The three bytes written are the base-256 digits of the mantissa. *)
Lemma mantissa_bytes (w : Z) :
  0 <= w < 16777216 ->
  Z.land w 0xFF + 256 * Z.land (Z.shiftr w 8) 0xFF
    + 65536 * Z.land (Z.shiftr w 16) 0xFF = w.
Proof.
  intros Hw.
  change 0xFF with (Z.ones 8). rewrite !Z.land_ones, !Z.shiftr_div_pow2 by lia.
  change (2 ^ 8) with 256. change (2 ^ 16) with 65536.
  pose proof (Z.div_mod w 256 ltac:(lia)) as H1.
  pose proof (Z.mod_pos_bound w 256 ltac:(lia)) as H2.
  pose proof (Z.div_mod (w / 256) 256 ltac:(lia)) as H3.
  pose proof (Z.mod_pos_bound (w / 256) 256 ltac:(lia)) as H4.
  assert (H5 : w / 65536 = w / 256 / 256) by (rewrite Z.div_div by lia; reflexivity).
  assert (H6 : 0 <= w / 65536 < 256).
  { split; [apply Z.div_pos; lia | apply Z.div_lt_upper_bound; lia]. }
  rewrite (Z.mod_small (w / 65536)) by exact H6. lia.
Qed.

(** Three byte writes at [o], [o + 1], [o + 2] into a cleared array. *)
Lemma le_value_three (o : nat) (b0 b1 b2 : Z) :
  (o + 2 < 32)%nat ->
  le_value (put (put (put (repeat 0 32) o b0) (o + 1) b1) (o + 2) b2)
  = (b0 + 256 * b1 + 65536 * b2) * 256 ^ Z.of_nat o.
Proof.
  intros Ho.
  rewrite !le_value_put by (rewrite ?length_put, repeat_length; lia).
  rewrite !get_put_other, !get_zeros, le_value_zeros by lia.
  rewrite !Nat2Z.inj_add, !Z.pow_add_r by lia.
  change (256 ^ Z.of_nat 1) with 256. change (256 ^ Z.of_nat 2) with 65536. lia.
Qed.

Lemma put_checked_in (a : list Z) (i v : Z) :
  0 <= i < Z.of_nat (length a) ->
  put_checked a i v = Some (put a (Z.to_nat i) v).
Proof.
  intros Hi. unfold put_checked.
  destruct (Z.leb_spec 0 i); [|lia].
  destruct (Z.ltb_spec i (Z.of_nat (length a))); [reflexivity | lia].
Qed.

Lemma put_checked_out (a : list Z) (i v : Z) :
  ~ 0 <= i < Z.of_nat (length a) -> put_checked a i v = None.
Proof.
  intros Hi. unfold put_checked.
  destruct (Z.leb_spec 0 i); [|reflexivity].
  destruct (Z.ltb_spec i (Z.of_nat (length a))); [lia | reflexivity].
Qed.

Lemma mantissa_range (nBits : Z) :
  0 <= Z.land nBits 0x007fffff < 8388608.
Proof.
  change 0x007fffff with (Z.ones 23). rewrite Z.land_ones by lia.
  change 8388608 with (2 ^ 23). apply Z.mod_pos_bound. lia.
Qed.

(** X16.  For a 32-bit [nBits] with size byte [nSize] and 23-bit mantissa
    [nWord], [bits_to_target256] is defined exactly up to size 32 (from 33
    on a byte is written past the end of the 32-byte target).  When
    defined, the array read as a little-endian number is
    [nWord >> 8 (3 - nSize)] up to size 3 and [nWord * 256 ^ (nSize - 3)]
    above. *)
Theorem bits_to_target256_value (nBits : Z) :
  0 <= nBits < two32 ->
  let nSize := Z.shiftr nBits 24 in
  let nWord := Z.land nBits 0x007fffff in
  (nSize <= 32 ->
   exists t, bits_to_target256 nBits = Some t /\ length t = 32%nat /\
     le_value t = if nSize <=? 3 then Z.shiftr nWord (8 * (3 - nSize))
                  else nWord * 256 ^ (nSize - 3)) /\
  (33 <= nSize -> bits_to_target256 nBits = None).
Proof.
  intros Hr. cbv zeta. pose proof (nSize_range nBits Hr) as Hn.
  pose proof (mantissa_range nBits) as Hw.
  unfold bits_to_target256. cbv zeta.
  generalize dependent (Z.land nBits 8388607). intros w Hw.
  generalize dependent (Z.shiftr nBits 24). intros n Hn.
  destruct (Z.leb_spec n 3) as [Hle|Hgt].
  - split; [|lia]. intros _.
    rewrite low_shift_count by lia. unfold shr_checked.
    destruct (Z.ltb_spec (8 * (3 - n)) 32) as [_|]; [|lia].
    eexists. split; [reflexivity|].
    split; [now rewrite !length_put, repeat_length|].
    assert (Hs : 0 <= Z.shiftr w (8 * (3 - n)) < 16777216).
    { rewrite Z.shiftr_div_pow2 by lia. split.
      - apply Z.div_pos; [lia|]. apply Z.pow_pos_nonneg; lia.
      - apply Z.div_lt_upper_bound; [apply Z.pow_pos_nonneg; lia|].
        assert (1 <= 2 ^ (8 * (3 - n))) by (apply (Z.pow_le_mono_r 2 0); lia).
        nia. }
    rewrite (le_value_three 0 _ _ _ ltac:(lia)).
    rewrite mantissa_bytes by exact Hs. change (256 ^ Z.of_nat 0) with 1. lia.
  - assert (Hoff : sub32 n 3 = n - 3)
      by (unfold sub32; apply u32_small; unfold two32; lia).
    rewrite Hoff.
    split.
    + intros Hle.
      rewrite put_checked_in by (rewrite ?length_put, repeat_length; lia).
      cbv beta iota.
      rewrite put_checked_in by (rewrite ?length_put, repeat_length; lia).
      cbv beta iota.
      rewrite put_checked_in by (rewrite ?length_put, repeat_length; lia).
      eexists. split; [reflexivity|].
      split; [now rewrite !length_put, repeat_length|].
      replace (Z.to_nat (n - 3 + 1)) with (Z.to_nat (n - 3) + 1)%nat by lia.
      replace (Z.to_nat (n - 3 + 2)) with (Z.to_nat (n - 3) + 2)%nat by lia.
      rewrite le_value_three by lia.
      rewrite mantissa_bytes by lia. now rewrite Z2Nat.id by lia.
    + intros Hge.
      destruct (Z.lt_ge_cases (n - 3) 32) as [H0|H0];
        [|now rewrite put_checked_out by (rewrite ?length_put, repeat_length; lia)].
      rewrite put_checked_in by (rewrite ?length_put, repeat_length; lia).
      cbv beta iota.
      destruct (Z.lt_ge_cases (n - 3 + 1) 32) as [H1|H1];
        [|now rewrite put_checked_out by (rewrite ?length_put, repeat_length; lia)].
      rewrite put_checked_in by (rewrite ?length_put, repeat_length; lia).
      cbv beta iota.
      now rewrite put_checked_out by (rewrite ?length_put, repeat_length; lia).
Qed.

Lemma bits_to_target256_value_witness :
  0 <= 0x1d00ffff < two32 /\
  exists t, bits_to_target256 0x1d00ffff = Some t /\
            le_value t = 0xffff * 256 ^ 26.
Proof.
  assert (H1 : 0 <= 0x1d00ffff < two32) by (unfold two32; lia).
  split; [exact H1|].
  destruct (proj1 (bits_to_target256_value 0x1d00ffff H1) ltac:(vm_compute; discriminate))
    as (t & Ht & _ & Hv).
  exists t. split; [exact Ht | exact Hv].
Defined.

(* ================================================================== *)
(** ** Kernel primitives *)

(** X17.  The kernel's rho-pi loop never uses the old value of state
    word 24 (its last [temp] is dropped), so a round maps two states that
    differ there to one state; and the whole permutation as written is
    not injective: two different 25-word states have the same image. *)
Theorem keccak_f800_not_injective :
  (forall (s : list Z) (v : Z),
     length s = 25%nat -> keccak_rho_pi (put s 24 v) = keccak_rho_pi s) /\
  exists s s' : list Z,
    length s = 25%nat /\ length s' = 25%nat /\
    Forall is_u32 s /\ Forall is_u32 s' /\
    s <> s' /\ keccak_f800 s = keccak_f800 s'.
Proof.
  split.
  - intros s v Hs. explode s Hs. reflexivity.
  - exists keccak_twin, (repeat 0 25).
    split; [reflexivity|]. split; [reflexivity|].
    split; [repeat constructor|]. split; [repeat constructor|].
    split; [discriminate|]. vm_compute. reflexivity.
Qed.

(** Multiplication by the FNV prime is invertible modulo 2^32. *)
Lemma mul32_FNV_PRIME_cancel (x y : Z) :
  is_u32 x -> is_u32 y -> mul32 x FNV_PRIME = mul32 y FNV_PRIME -> x = y.
Proof.
  intros Hx Hy H. apply is_u32_range in Hx, Hy.
  unfold mul32 in H. rewrite !u32_mod in H.
  assert (Hinv : forall a, 0 <= a < two32 ->
            (a * FNV_PRIME mod two32 * 899433627) mod two32 = a).
  { intros a Ha. rewrite Z.mul_mod_idemp_l by (unfold two32; lia).
    replace (a * FNV_PRIME * 899433627) with (a + a * 3513497 * two32)
      by (unfold FNV_PRIME, two32; lia).
    rewrite Z.mod_add by (unfold two32; lia). now apply Z.mod_small. }
  rewrite <- (Hinv x Hx), <- (Hinv y Hy). now rewrite H.
Qed.

(** X18.  [fnv1a] loses nothing of either argument: with one argument
    fixed it is injective in the other on 32-bit words, and it is
    symmetric in its two arguments. *)
Theorem fnv1a_injective (a a' b : Z) :
  is_u32 a -> is_u32 a' -> is_u32 b ->
  (fnv1a a b = fnv1a a' b -> a = a') /\
  (fnv1a b a = fnv1a b a' -> a = a') /\
  fnv1a a b = fnv1a b a.
Proof.
  intros Ha Ha' Hb.
  assert (Hl : forall x y z, Z.lxor x z = Z.lxor y z -> x = y).
  { intros x y z H.
    rewrite <- (Z.lxor_0_r x), <- (Z.lxor_0_r y), <- (Z.lxor_nilpotent z),
      <- !Z.lxor_assoc. now rewrite H. }
  unfold fnv1a. split; [|split].
  - intros H. apply mul32_FNV_PRIME_cancel in H; [|now apply is_u32_lxor ..].
    exact (Hl _ _ _ H).
  - intros H. apply mul32_FNV_PRIME_cancel in H; [|now apply is_u32_lxor ..].
    rewrite (Z.lxor_comm b a), (Z.lxor_comm b a') in H. exact (Hl _ _ _ H).
  - now rewrite Z.lxor_comm.
Qed.

Lemma fnv1a_injective_witness :
  is_u32 1 /\ is_u32 2 /\ is_u32 3 /\ fnv1a 1 3 = fnv1a 3 1.
Proof.
  assert (H1 : is_u32 1) by reflexivity.
  assert (H2 : is_u32 2) by reflexivity.
  assert (H3 : is_u32 3) by reflexivity.
  split; [exact H1|]. split; [exact H2|]. split; [exact H3|].
  exact (proj2 (proj2 (fnv1a_injective 1 2 3 H1 H2 H3))).
Defined.

Lemma is_u32_high_bits (x k : Z) : is_u32 x -> 32 <= k -> Z.testbit x k = false.
Proof.
  intros Hx Hk. rewrite <- Hx, u32_mod. change two32 with (2 ^ 32).
  apply Z.mod_pow2_bits_high. lia.
Qed.

Lemma u32_low_bits (x k : Z) : 0 <= k < 32 -> Z.testbit (u32 x) k = Z.testbit x k.
Proof.
  intros Hk. rewrite u32_mod. change two32 with (2 ^ 32).
  apply Z.mod_pow2_bits_low. lia.
Qed.

(** Bit [k] of a rotation comes from bit [k - n] modulo 32. *)
Lemma rotate_bit (x n k : Z) :
  is_u32 x -> 0 <= k < 32 ->
  Z.testbit (rotate x n) k = Z.testbit x ((k - n) mod 32).
Proof.
  intros Hx Hk. unfold rotate. cbv zeta.
  pose proof (Z.mod_pos_bound n 32 ltac:(lia)) as Hr.
  rewrite <- (Zminus_mod_idemp_r k n 32).
  generalize dependent (n mod 32). intros r Hr.
  rewrite u32_low_bits, Z.lor_spec, Z.shiftl_spec, Z.shiftr_spec by lia.
  destruct (Z.lt_ge_cases k r) as [Hlt|Hge].
  - rewrite (Z.testbit_neg_r x (k - r)) by lia. cbn [orb].
    f_equal. apply (Z.mod_unique _ _ (-1)); lia.
  - rewrite (is_u32_high_bits x (k + (32 - r))) by (assumption || lia).
    rewrite orb_false_r. f_equal. symmetry. apply Z.mod_small. lia.
Qed.

Lemma is_u32_rotate (x n : Z) : is_u32 (rotate x n).
Proof. apply is_u32_u32. Qed.

(** Two rotations whose counts add up to a multiple of 32 undo each other. *)
Lemma rotate_rotate (x n m : Z) :
  is_u32 x -> (n + m) mod 32 = 0 -> rotate (rotate x n) m = x.
Proof.
  intros Hx Hnm. apply Z.bits_inj'. intros k Hk.
  destruct (Z.lt_ge_cases k 32) as [Hlt|Hge].
  - pose proof (Z.mod_pos_bound (k - m) 32 ltac:(lia)) as Hb.
    rewrite rotate_bit by (apply is_u32_rotate || lia).
    rewrite rotate_bit by (assumption || lia).
    f_equal. rewrite Zminus_mod_idemp_l.
    replace (k - m - n) with (k - (n + m)) by lia.
    rewrite <- Zminus_mod_idemp_r, Hnm, Z.sub_0_r. apply Z.mod_small. lia.
  - rewrite !is_u32_high_bits by (apply is_u32_rotate || assumption || lia).
    reflexivity.
Qed.

(** X19.  The two rotation operations of [random_math_op] undo each
    other: on a 32-bit word [a], operation 5 (rotate right by [b & 31])
    after operation 4 (rotate left by [b & 31]) gives [a] back, and the
    other way round. *)
Theorem random_math_op_rotations_inverse (a b : Z) :
  is_u32 a ->
  random_math_op (random_math_op a b 4) b 5 = a /\
  random_math_op (random_math_op a b 5) b 4 = a.
Proof.
  intros Ha.
  change (random_math_op (random_math_op a b 4) b 5)
    with (ROTR32 (ROTL32 a (Z.land b 31)) (Z.land b 31)).
  change (random_math_op (random_math_op a b 5) b 4)
    with (ROTL32 (ROTR32 a (Z.land b 31)) (Z.land b 31)).
  assert (Hb : 0 <= Z.land b 31 < 32).
  { change 31 with (Z.ones 5). rewrite Z.land_ones by lia.
    apply Z.mod_pos_bound. lia. }
  generalize dependent (Z.land b 31). intros n Hn.
  unfold ROTR32, ROTL32.
  rewrite !(u32_small n), !(u32_small (32 - n)) by (unfold two32; lia).
  rewrite !is_u32_rotate, Ha.
  split; apply rotate_rotate; try assumption.
  - replace (n + (32 - n)) with 32 by lia. reflexivity.
  - replace (32 - n + n) with 32 by lia. reflexivity.
Qed.

Lemma random_math_op_rotations_inverse_witness :
  is_u32 0x80000001 /\
  random_math_op (random_math_op 0x80000001 37 4) 37 5 = 0x80000001.
Proof.
  assert (H1 : is_u32 0x80000001) by reflexivity.
  split; [exact H1|].
  exact (proj1 (random_math_op_rotations_inverse 0x80000001 37 H1)).
Defined.

(* ================================================================== *)
(** ** Epoch seeds *)

Lemma word_bytes (w : Z) :
  0 <= w < two32 ->
  u8 w + 256 * u8 (Z.shiftr w 8) + 65536 * u8 (Z.shiftr w 16)
    + 16777216 * u8 (Z.shiftr w 24) = w.
Proof.
  intros Hw. unfold u8, two32 in *.
  change 0xFF with (Z.ones 8). rewrite !Z.land_ones, !Z.shiftr_div_pow2 by lia.
  change (2 ^ 8) with 256. change (2 ^ 16) with (256 * 256).
  change (2 ^ 24) with (256 * 256 * 256).
  rewrite <- !Z.div_div by lia.
  pose proof (Z.div_mod w 256 ltac:(lia)) as H1.
  pose proof (Z.mod_pos_bound w 256 ltac:(lia)) as H2.
  pose proof (Z.div_mod (w / 256) 256 ltac:(lia)) as H3.
  pose proof (Z.mod_pos_bound (w / 256) 256 ltac:(lia)) as H4.
  pose proof (Z.div_mod (w / 256 / 256) 256 ltac:(lia)) as H5.
  pose proof (Z.mod_pos_bound (w / 256 / 256) 256 ltac:(lia)) as H6.
  assert (H7 : 0 <= w / 256 / 256 / 256 < 256).
  { rewrite !Z.div_div by lia. split;
      [apply Z.div_pos; lia | apply Z.div_lt_upper_bound; lia]. }
  rewrite (Z.mod_small (w / 256 / 256 / 256)) by exact H7. lia.
Qed.

(** Bytes 4 to 7 of the miner core's seed are the bytes of the epoch
    times the FNV prime. *)
Lemma adaptivepow_get_seed_word1 (e : Z) (k : nat) :
  (k < 4)%nat ->
  get (adaptivepow_get_seed e) (4 + k)
  = u8 (Z.shiftr (mul32 e FNV_PRIME) (8 * Z.of_nat k)).
Proof.
  intros Hk.
  destruct k as [|[|[|[|k]]]]; [reflexivity .. | lia].
Qed.

Lemma opencl_dag_seed_word1 (e : Z) (k : nat) :
  (k < 4)%nat -> get (opencl_dag_seed e) (4 + k) = 0.
Proof.
  intros Hk.
  destruct k as [|[|[|[|k]]]]; [reflexivity .. | lia].
Qed.

(** The product is determined by bytes 4 to 7 of the seed. *)
Lemma adaptivepow_get_seed_product (e : Z) :
  mul32 e FNV_PRIME
  = get (adaptivepow_get_seed e) 4 + 256 * get (adaptivepow_get_seed e) 5
    + 65536 * get (adaptivepow_get_seed e) 6
    + 16777216 * get (adaptivepow_get_seed e) 7.
Proof.
  pose proof (adaptivepow_get_seed_word1 e 0 ltac:(lia)) as E0.
  pose proof (adaptivepow_get_seed_word1 e 1 ltac:(lia)) as E1.
  pose proof (adaptivepow_get_seed_word1 e 2 ltac:(lia)) as E2.
  pose proof (adaptivepow_get_seed_word1 e 3 ltac:(lia)) as E3.
  cbn [Nat.add] in E0, E1, E2, E3. rewrite E0, E1, E2, E3.
  change (8 * Z.of_nat 0) with 0. change (8 * Z.of_nat 1) with 8.
  change (8 * Z.of_nat 2) with 16. change (8 * Z.of_nat 3) with 24.
  rewrite Z.shiftr_0_r. symmetry. apply word_bytes, u32_range.
Qed.

(** X20.  The miner core's [adaptivepow_get_seed] tells 32-bit epochs
    apart, and for every epoch but 0 it differs from the seed that
    [adaptivepow_opencl_generate_dag] uploads: bytes 4 to 7 hold the
    epoch times the FNV prime in the one and zeros in the other. *)
Theorem adaptivepow_get_seed_injective (e e' : Z) :
  is_u32 e -> is_u32 e' ->
  (adaptivepow_get_seed e = adaptivepow_get_seed e' -> e = e') /\
  (e <> 0 -> adaptivepow_get_seed e <> opencl_dag_seed e).
Proof.
  intros He He'. split.
  - intros H. apply mul32_FNV_PRIME_cancel; [assumption ..|].
    now rewrite !adaptivepow_get_seed_product, H.
  - intros Hnz H. apply Hnz.
    apply mul32_FNV_PRIME_cancel; [assumption | reflexivity |].
    rewrite adaptivepow_get_seed_product, H.
    pose proof (opencl_dag_seed_word1 e 0 ltac:(lia)) as E0.
    pose proof (opencl_dag_seed_word1 e 1 ltac:(lia)) as E1.
    pose proof (opencl_dag_seed_word1 e 2 ltac:(lia)) as E2.
    pose proof (opencl_dag_seed_word1 e 3 ltac:(lia)) as E3.
    cbn [Nat.add] in E0, E1, E2, E3. rewrite E0, E1, E2, E3.
    reflexivity.
Qed.

Lemma adaptivepow_get_seed_injective_witness :
  is_u32 1 /\ is_u32 2 /\
  adaptivepow_get_seed 1 <> opencl_dag_seed 1.
Proof.
  assert (H1 : is_u32 1) by reflexivity.
  assert (H2 : is_u32 2) by reflexivity.
  split; [exact H1|]. split; [exact H2|].
  apply (proj2 (adaptivepow_get_seed_injective 1 2 H1 H2)). discriminate.
Defined.



(* ================================================================== *)
(** ** The random-number generator and the counting operations *)

Lemma is_u32_shr32 (x n : Z) : is_u32 x -> 0 <= n -> is_u32 (shr32 x n).
Proof.
  intros Hx Hn. apply is_u32_range in Hx. apply is_u32_range.
  unfold shr32. rewrite Z.shiftr_div_pow2 by exact Hn.
  assert (Hp : 0 < 2 ^ n) by (apply Z.pow_pos_nonneg; lia).
  split; [apply Z.div_pos; lia|].
  apply Z.div_lt_upper_bound; [exact Hp|]. unfold two32 in *. nia.
Qed.

(** X22.  [kiss99_next] keeps a state of 32-bit words in 32-bit words and
    returns a 32-bit number.  Its [jcong] component is a linear
    congruential sequence of its own, and a [jsr] component of 0 stays 0:
    the xorshift part then adds nothing to the output. *)
Theorem kiss99_next_invariants (st : kiss99_t) :
  is_u32 (z st) -> is_u32 (w st) -> is_u32 (jsr st) -> is_u32 (jcong st) ->
  let r := fst (kiss99_next st) in
  let st' := snd (kiss99_next st) in
  is_u32 r /\
  is_u32 (z st') /\ is_u32 (w st') /\ is_u32 (jsr st') /\ is_u32 (jcong st') /\
  jcong st' = (69069 * jcong st + 1234567) mod two32 /\
  (jsr st = 0 ->
   jsr st' = 0 /\ r = Z.lxor (add32 (shl32 (z st') 16) (w st')) (jcong st')).
Proof.
  intros Hz Hw Hj Hc. cbv zeta.
  destruct st as [z0 w0 j0 c0]. cbn [z w jsr jcong] in *.
  unfold kiss99_next. cbn [z w jsr jcong fst snd].
  assert (H1 : is_u32 (Z.lxor j0 (shl32 j0 17)))
    by (apply is_u32_lxor; [assumption | apply is_u32_u32]).
  assert (H2 : is_u32 (Z.lxor (Z.lxor j0 (shl32 j0 17))
                         (shr32 (Z.lxor j0 (shl32 j0 17)) 13)))
    by (apply is_u32_lxor; [assumption | apply is_u32_shr32; [assumption | lia]]).
  split; [apply is_u32_u32|]. split; [apply is_u32_u32|].
  split; [apply is_u32_u32|].
  split; [apply is_u32_lxor; [assumption | apply is_u32_u32]|].
  split; [apply is_u32_u32|].
  split.
  - unfold add32, mul32. rewrite !u32_mod.
    rewrite Z.add_mod_idemp_l by (unfold two32; lia). reflexivity.
  - intros ->. split; [reflexivity|].
    change (Z.lxor (Z.lxor (Z.lxor 0 (shl32 0 17))
                      (shr32 (Z.lxor 0 (shl32 0 17)) 13))
              (shl32 (Z.lxor (Z.lxor 0 (shl32 0 17))
                        (shr32 (Z.lxor 0 (shl32 0 17)) 13)) 5)) with 0.
    unfold add32 at 1. rewrite Z.add_0_r. apply is_u32_lxor; apply is_u32_u32.
Qed.

Lemma kiss99_next_invariants_witness :
  is_u32 (z (mkKiss 1 2 0 4)) /\ is_u32 (w (mkKiss 1 2 0 4)) /\
  is_u32 (jsr (mkKiss 1 2 0 4)) /\ is_u32 (jcong (mkKiss 1 2 0 4)) /\
  jsr (snd (kiss99_next (mkKiss 1 2 0 4))) = 0.
Proof.
  assert (H1 : is_u32 (z (mkKiss 1 2 0 4))) by reflexivity.
  assert (H2 : is_u32 (w (mkKiss 1 2 0 4))) by reflexivity.
  assert (H3 : is_u32 (jsr (mkKiss 1 2 0 4))) by reflexivity.
  assert (H4 : is_u32 (jcong (mkKiss 1 2 0 4))) by reflexivity.
  split; [exact H1|]. split; [exact H2|]. split; [exact H3|]. split; [exact H4|].
  destruct (kiss99_next_invariants (mkKiss 1 2 0 4) H1 H2 H3 H4)
    as (_ & _ & _ & _ & _ & _ & Hzero).
  exact (proj1 (Hzero eq_refl)).
Defined.

Lemma count_bits_bound (f : nat -> bool) (l : list nat) (c : Z) :
  c <= fold_left (fun c i => if f i then c + 1 else c) l c <= c + Z.of_nat (length l).
Proof.
  revert c. induction l as [|i l IH]; intros c; cbn [fold_left length]; [lia|].
  specialize (IH (if f i then c + 1 else c)).
  destruct (f i); lia.
Qed.

Lemma popcount32_bound (x : Z) : 0 <= popcount32 x <= 32.
Proof.
  unfold popcount32.
  pose proof (count_bits_bound (fun i => Z.testbit x (Z.of_nat i)) (seq 0 32) 0) as H.
  rewrite length_seq in H. cbv beta in H. lia.
Qed.

Lemma clz32_bound (x : Z) : is_u32 x -> 0 <= clz32 x <= 32.
Proof.
  intros Hx. apply is_u32_range in Hx. unfold clz32.
  destruct (Z.eqb_spec x 0) as [|Hnz]; [lia|].
  assert (Hl : Z.log2 x < 32) by (apply Z.log2_lt_pow2; unfold two32 in *; lia).
  pose proof (Z.log2_nonneg x). lia.
Qed.

(** X23.  Operations 8 and 9 of [random_math_op] (leading zeros and
    population counts added up) yield at most 64 on 32-bit operands, and
    operation 8 yields 64 only for two zero operands. *)
Theorem random_math_op_counts_small (a b : Z) :
  is_u32 a -> is_u32 b ->
  0 <= random_math_op a b 8 <= 64 /\
  0 <= random_math_op a b 9 <= 64 /\
  (random_math_op a b 8 = 64 <-> a = 0 /\ b = 0).
Proof.
  intros Ha Hb.
  change (random_math_op a b 8) with (add32 (clz32 a) (clz32 b)).
  change (random_math_op a b 9) with (add32 (popcount32 a) (popcount32 b)).
  pose proof (clz32_bound a Ha) as Ca. pose proof (clz32_bound b Hb) as Cb.
  pose proof (popcount32_bound a) as Pa. pose proof (popcount32_bound b) as Pb.
  unfold add32. rewrite !u32_small by (unfold two32; lia).
  split; [lia|]. split; [lia|].
  apply is_u32_range in Ha, Hb. unfold clz32 in *.
  destruct (Z.eqb_spec a 0) as [->|Hna], (Z.eqb_spec b 0) as [->|Hnb].
  - split; [now split | reflexivity].
  - pose proof (Z.log2_nonneg b). split; [lia | intros [_ ?]; lia].
  - pose proof (Z.log2_nonneg a). split; [lia | intros [? _]; lia].
  - pose proof (Z.log2_nonneg a). split; [lia | intros [? _]; lia].
Qed.

Lemma random_math_op_counts_small_witness :
  is_u32 0 /\ is_u32 0 /\ random_math_op 0 0 8 = 64.
Proof.
  assert (H1 : is_u32 0) by reflexivity.
  split; [exact H1|]. split; [exact H1|].
  apply (proj2 (proj2 (random_math_op_counts_small 0 0 H1 H1))).
  split; reflexivity.
Defined.
